(** * SafetyEye: PPE association, violation rules and alert gating

    A shallow embedding of [core/utils.py] ([iou], [center]),
    [core/rules.py] ([safe_label], [has_valid_box], [match_ppe_to_person],
    [evaluate_violations], [detect_violations]) and of the body of the main
    loop of [app.py] (frame-rate gate, per-person log cooldown, e-mail
    throttle), followed by the properties established about them.

    Conventions of the embedding.
    - Python numbers are exact: an [int] is a [Z], a [float] is a rational
      [Q]; coordinates, confidences, thresholds and clock readings are
      compared with the exact order of [Q].
    - A detection is the dictionary documented in [Detector.predict]
      ([box], [conf], [cls], [label]) together with the alternative keys
      that [safe_label] consults.  Every key may be absent.  Text keys hold
      ASCII strings, class-index keys hold integers, [conf] holds a number;
      the value under [box] is an arbitrary Python value, because its shape
      is what [has_valid_box] inspects.
    - A dictionary whose iteration order matters is an association list in
      insertion order; the cooldown table of the session is a [gmap]. *)

From Stdlib Require Import ZArith QArith Qminmax String Ascii List Bool Lia Lqa.
From Stdlib Require Import DecimalString DecimalPos DecimalZ Permutation FinFun.
From stdpp Require Import gmap.
Import ListNotations.

#[local] Set Warnings "-register-all".

Open Scope Z_scope.
Open Scope Q_scope.

(** ** Python values *)

Module Py.

(** The values a [box] entry (or a list element that is not a dictionary)
    may hold. *)
Inductive pyval : Type :=
| VNone
| VInt (z : Z)
| VFloat (q : Q)
| VStr (s : string)
| VList (xs : list pyval)
| VTuple (xs : list pyval).

(** Outcome of a call that may raise.  Which exception is raised is not
    tracked. *)
Inductive result (A : Type) : Type :=
| Ok (a : A)
| Raised.

Arguments Ok {A} a.
Arguments Raised {A}.

#[export] Instance result_bind : MBind result :=
  fun A B (k : A -> result B) (r : result A) =>
    match r with
    | Ok a => k a
    | Raised => Raised
    end.

#[export] Instance result_ret : MRet result := fun A a => Ok a.

Definition is_ok {A : Type} (r : result A) : bool :=
  match r with
  | Ok _ => true
  | Raised => false
  end.

(** [isinstance(v, (int, float))]: the operands the arithmetic of
    [iou] and [center] accepts. *)
Definition as_number (v : pyval) : option Q :=
  match v with
  | VInt z => Some (inject_Z z)
  | VFloat q => Some q
  | _ => None
  end.

(** [isinstance(v, (list, tuple))] together with the items. *)
Definition as_sequence (v : pyval) : option (list pyval) :=
  match v with
  | VList xs => Some xs
  | VTuple xs => Some xs
  | _ => None
  end.

(** [str.lower] on ASCII text. *)
Definition lower_ascii (c : ascii) : ascii :=
  let n := nat_of_ascii c in
  if (Nat.leb 65 n && Nat.leb n 90)%bool then ascii_of_nat (n + 32) else c.

Fixpoint lower (s : string) : string :=
  match s with
  | EmptyString => EmptyString
  | String c r => String (lower_ascii c) (lower r)
  end.

(** [str(n)] for an integer. *)
Definition str_of_int (z : Z) : string := NilZero.string_of_int (Z.to_int z).

(** Truthiness of a string: non-empty. *)
Definition truthy (s : string) : bool :=
  match s with
  | EmptyString => false
  | String _ _ => true
  end.

End Py.
Export Py.

(** Strict comparison of two numbers, [a < b]. *)
Definition Qlt_bool (a b : Q) : bool := negb (Qle_bool b a).

(** ** Detections *)

Record detection : Type := mk_detection {
  d_label : option string;
  d_cls : option Z;
  d_class : option Z;
  d_class_id : option Z;
  d_category : option Z;
  d_name : option string;
  d_class_name : option string;
  d_label_text : option string;
  d_box : option pyval;
  d_conf : option Q
}.

(** The empty dictionary [{}]. *)
Definition empty_detection : detection :=
  mk_detection None None None None None None None None None None.

(** The dictionary [Detector.predict] builds:
    [{'box': .., 'conf': .., 'cls': .., 'label': ..}]. *)
Definition predicted (box : pyval) (conf : Q) (cls : Z) (label : string) : detection :=
  mk_detection (Some label) (Some cls) None None None None None None (Some box) (Some conf).

(** An element of the list handed to the rules: a dictionary or some
    other value. *)
Inductive pyobj : Type :=
| Dict (d : detection)
| NotDict (v : pyval).

(** A box given by four integer pixel coordinates, as a tuple. *)
Definition box4 (x1 y1 x2 y2 : Z) : pyval :=
  VTuple [VInt x1; VInt y1; VInt x2; VInt y2].

(** ** core/utils.py *)

Definition coords : Type := (Q * Q * Q * Q)%type.

(** [x1, y1, x2, y2 = box] followed by arithmetic on the four items: the
    box is a sequence of exactly four numbers, or the code raises. *)
Definition box_coords (box : pyval) : result coords :=
  match as_sequence box with
  | Some [a; b; c; d] =>
      match as_number a, as_number b, as_number c, as_number d with
      | Some x1, Some y1, Some x2, Some y2 => Ok (x1, y1, x2, y2)
      | _, _, _, _ => Raised
      end
  | _ => Raised
  end.

(** [iou] on numeric boxes. *)
Definition iou_coords (boxA boxB : coords) : Q :=
  let '(a0, a1, a2, a3) := boxA in
  let '(b0, b1, b2, b3) := boxB in
  let xA := Qmax a0 b0 in
  let yA := Qmax a1 b1 in
  let xB := Qmin a2 b2 in
  let yB := Qmin a3 b3 in
  let interW := Qmax 0 (xB - xA) in
  let interH := Qmax 0 (yB - yA) in
  let interArea := interW * interH in
  let boxAArea := Qmax 1 (a2 - a0) * Qmax 1 (a3 - a1) in
  let boxBArea := Qmax 1 (b2 - b0) * Qmax 1 (b3 - b1) in
  let union := boxAArea + boxBArea - interArea in
  if Qlt_bool 0 union then interArea / union else 0.

(** [box[0]], [box[1]], [box[2]], [box[3]] as numbers: what [iou] reads
    of a box. *)
Definition first_four (box : pyval) : result coords :=
  match as_sequence box with
  | Some (a :: b :: c :: d :: _) =>
      match as_number a, as_number b, as_number c, as_number d with
      | Some x1, Some y1, Some x2, Some y2 => Ok (x1, y1, x2, y2)
      | _, _, _, _ => Raised
      end
  | _ => Raised
  end.

Definition iou (boxA boxB : pyval) : result Q :=
  a ← first_four boxA;
  b ← first_four boxB;
  Ok (iou_coords a b).

Definition center_coords (box : coords) : Q * Q :=
  let '(x1, y1, x2, y2) := box in
  ((x1 + x2) / 2, (y1 + y2) / 2).

Definition center (box : pyval) : result (Q * Q) :=
  c ← box_coords box;
  Ok (center_coords c).

(** ** core/rules.py: helpers *)

(** First key of a group that is present and not [None]. *)
Fixpoint first_present {A : Type} (fields : list (option A)) : option A :=
  match fields with
  | [] => None
  | Some a :: _ => Some a
  | None :: rest => first_present rest
  end.

(** First key of a group that is present and truthy. *)
Fixpoint first_truthy (fields : list (option string)) : option string :=
  match fields with
  | [] => None
  | Some s :: rest => if truthy s then Some s else first_truthy rest
  | None :: rest => first_truthy rest
  end.

(** [safe_label]: an existing label first, then the numeric class keys,
    then the other text keys.  The [except] branches of the source guard
    conversions that cannot fail on strings and integers. *)
Definition safe_label (det : pyobj) : string :=
  match det with
  | NotDict _ => EmptyString
  | Dict d =>
      match d_label d with
      | Some s => lower s
      | None =>
          match first_present [d_cls d; d_class d; d_class_id d; d_category d] with
          | Some z => str_of_int z
          | None =>
              match first_truthy [d_name d; d_class_name d; d_label_text d] with
              | Some s => lower s
              | None => EmptyString
              end
          end
      end
  end.

Definition has_valid_box (det : pyobj) : bool :=
  match det with
  | NotDict _ => false
  | Dict d =>
      match d_box d with
      | None => false
      | Some box =>
          match as_sequence box with
          | None => false
          | Some items => Nat.eqb (length items) 4
          end
      end
  end.

(** [det["box"]]. *)
Definition getitem_box (d : detection) : result pyval :=
  match d_box d with
  | Some b => Ok b
  | None => Raised
  end.

(** ** core/rules.py: detections -> persons + ppe *)

(** One value of the mapping: [{"person": .., "ppe": [..]}]. *)
Record info : Type := mk_info {
  person : detection;
  ppe : list detection
}.

(** [Dict[int, Dict]], in insertion order. *)
Definition mapping : Type := list (Z * info).

(** [d[k] = v] on an insertion-ordered dictionary: an existing key keeps
    its position, a new key goes last. *)
Fixpoint dict_set {V : Type} (k : Z) (v : V) (d : list (Z * V)) : list (Z * V) :=
  match d with
  | [] => [(k, v)]
  | (k', v') :: rest =>
      if Z.eqb k k' then (k, v) :: rest else (k', v') :: dict_set k v rest
  end.

Fixpoint dict_get {V : Type} (k : Z) (d : list (Z * V)) : option V :=
  match d with
  | [] => None
  | (k', v') :: rest => if Z.eqb k k' then Some v' else dict_get k rest
  end.

(** [cleaned = [d for d in detections if has_valid_box(d)]]; what passes
    the test is a dictionary. *)
Definition cleaned (detections : list pyobj) : list detection :=
  flat_map (fun d =>
              match d with
              | Dict r => if has_valid_box d then [r] else []
              | NotDict _ => []
              end) detections.

Definition is_person_label (lab : string) : bool :=
  String.eqb lab "person" || String.eqb lab "people" || String.eqb lab "0".

Definition is_person (d : detection) : bool := is_person_label (safe_label (Dict d)).

(** [for idx, p in enumerate(persons): mapping[idx] = {"person": p, "ppe": []}]. *)
Fixpoint initial_mapping (idx : Z) (persons : list detection) : mapping :=
  match persons with
  | [] => []
  | p :: rest => (idx, mk_info p []) :: initial_mapping (idx + 1)%Z rest
  end.

(** [mapping[idx]["ppe"].append(ppe_det)]. *)
Definition append_ppe (idx : Z) (ppe_det : detection) (m : mapping) : mapping :=
  map (fun '(k, i) =>
         if Z.eqb k idx then (k, mk_info (person i) (ppe i ++ [ppe_det])) else (k, i)) m.

(** The inner loop over [mapping.items()] that looks for the best
    overlap, started with [best_iou = 0.0] and [best_idx = None]. *)
Fixpoint best_person (items : mapping) (ppe_box : pyval) (iou_thresh : Q)
    (best_iou : Q) (best_idx : option Z) : result (option Z) :=
  match items with
  | [] => Ok best_idx
  | (idx, i) :: rest =>
      p_box ← getitem_box (person i);
      ov ← iou p_box ppe_box;
      if Qlt_bool best_iou ov && Qle_bool iou_thresh ov
      then best_person rest ppe_box iou_thresh ov (Some idx)
      else best_person rest ppe_box iou_thresh best_iou best_idx
  end.

(** [x1, y1, x2, y2 = box]. *)
Definition unpack4 (box : pyval) : result (pyval * pyval * pyval * pyval) :=
  match box with
  | VList [a; b; c; d] | VTuple [a; b; c; d] => Ok (a, b, c, d)
  | VStr (String a (String b (String c (String d EmptyString)))) =>
      Ok (VStr (String a EmptyString), VStr (String b EmptyString), VStr (String c EmptyString), VStr (String d EmptyString))
  | _ => Raised
  end.

(** [v <= q] and [q <= v] for a coordinate [v] and a number [q]. *)
Definition py_le_l (v : pyval) (q : Q) : result bool :=
  match as_number v with
  | Some x => Ok (Qle_bool x q)
  | None => Raised
  end.

Definition py_le_r (q : Q) (v : pyval) : result bool :=
  match as_number v with
  | Some x => Ok (Qle_bool q x)
  | None => Raised
  end.

(** [x1 <= cx <= x2 and y1 <= cy <= y2], evaluated left to right and
    stopping at the first comparison that is false. *)
Definition contains_point (box : pyval * pyval * pyval * pyval) (c : Q * Q) : result bool :=
  let '(x1, y1, x2, y2) := box in
  let '(cx, cy) := c in
  b1 ← py_le_l x1 cx;
  if negb b1 then Ok false else
  b2 ← py_le_r cx x2;
  if negb b2 then Ok false else
  b3 ← py_le_l y1 cy;
  if negb b3 then Ok false else
  py_le_r cy y2.

(** The fallback loop: first person whose box contains the centre. *)
Fixpoint first_containing (items : mapping) (c : Q * Q) : result (option Z) :=
  match items with
  | [] => Ok None
  | (idx, i) :: rest =>
      p_box ← getitem_box (person i);
      b ← unpack4 p_box;
      inside ← contains_point b c;
      if (inside : bool) then Ok (Some idx) else first_containing rest c
  end.

(** Where one equipment detection goes: the body of the loop over
    [others], up to the append. *)
Definition assign_target (iou_thresh : Q) (m : mapping) (ppe_det : detection)
    : result (option Z) :=
  ppe_box ← getitem_box ppe_det;
  best_idx ← best_person m ppe_box iou_thresh 0 None;
  match best_idx with
  | Some idx => Ok (Some idx)
  | None =>
      c ← center ppe_box;
      first_containing m c
  end.

Definition assign_one (iou_thresh : Q) (m : mapping) (ppe_det : detection)
    : result mapping :=
  target ← assign_target iou_thresh m ppe_det;
  match target with
  | Some idx => Ok (append_ppe idx ppe_det m)
  | None => Ok m
  end.

Fixpoint assign_all (iou_thresh : Q) (m : mapping) (others : list detection)
    : result mapping :=
  match others with
  | [] => Ok m
  | ppe_det :: rest =>
      m' ← assign_one iou_thresh m ppe_det;
      assign_all iou_thresh m' rest
  end.

Definition match_ppe_to_person (detections : list pyobj) (iou_thresh : Q)
    : result mapping :=
  let '(persons, others) := partition is_person (cleaned detections) in
  assign_all iou_thresh (initial_mapping 0 persons) others.

(** ** core/rules.py: violation evaluation *)

Record details : Type := mk_details {
  has_helmet : bool;
  has_no_helmet : bool;
  has_vest : bool;
  has_no_vest : bool
}.

Record violation : Type := mk_violation {
  person_idx : Z;
  person_box : pyval;
  missing_helmet : bool;
  missing_vest : bool;
  violation_details : details
}.

(** An element of the legacy list shape: a dictionary read through
    [item.get("person_idx", 0)] and [item.get("person_box", (0, 0, 0, 0))].
    The index, when present, is an integer, so [int(..)] cannot fail. *)
Record legacy_item : Type := mk_legacy_item {
  li_person_idx : option Z;
  li_person_box : option pyval
}.

Inductive mapping_arg : Type :=
| AsDict (m : mapping)
| AsList (items : list legacy_item).

Definition zero_box : pyval := box4 0 0 0 0.

(** The conversion of a list argument into a dictionary. *)
Fixpoint mapping_of_list (items : list legacy_item) (tmp : mapping) : mapping :=
  match items with
  | [] => tmp
  | item :: rest =>
      let idx := default 0%Z (li_person_idx item) in
      let p := mk_detection None None None None None None None None
                 (Some (default zero_box (li_person_box item))) None in
      mapping_of_list rest (dict_set idx (mk_info p []) tmp)
  end.

Definition normalise_mapping (arg : mapping_arg) : mapping :=
  match arg with
  | AsDict m => m
  | AsList items => mapping_of_list items []
  end.

(** One iteration of [for p in ppe_list]. *)
Definition scan_ppe (conf_threshold : Q) (acc : details) (p : detection) : details :=
  let lab := safe_label (Dict p) in
  let c := default 0 (d_conf p) in
  if String.eqb lab "helmet" && Qle_bool conf_threshold c then
    mk_details true (has_no_helmet acc) (has_vest acc) (has_no_vest acc)
  else if String.eqb lab "no_helmet" && Qle_bool conf_threshold c then
    mk_details (has_helmet acc) true (has_vest acc) (has_no_vest acc)
  else if String.eqb lab "vest" && Qle_bool conf_threshold c then
    mk_details (has_helmet acc) (has_no_helmet acc) true (has_no_vest acc)
  else if String.eqb lab "no_vest" && Qle_bool conf_threshold c then
    mk_details (has_helmet acc) (has_no_helmet acc) (has_vest acc) true
  else acc.

Definition no_signal : details := mk_details false false false false.

Definition signals (conf_threshold : Q) (ppe_list : list detection) : details :=
  fold_left (scan_ppe conf_threshold) ppe_list no_signal.

(** The loop [for idx, info in mapping.items()], with the two lists it
    appends to. *)
Fixpoint evaluate_loop (conf_threshold : Q) (items : mapping)
    (violations : list violation) (violation_boxes : list pyval)
    : list violation * list pyval :=
  match items with
  | [] => (violations, violation_boxes)
  | (idx, i) :: rest =>
      let person_box := default zero_box (d_box (person i)) in
      let s := signals conf_threshold (ppe i) in
      let missing_helmet := negb (has_helmet s) || has_no_helmet s in
      let missing_vest := negb (has_vest s) || has_no_vest s in
      if missing_helmet || missing_vest then
        evaluate_loop conf_threshold rest
          (violations ++ [mk_violation idx person_box missing_helmet missing_vest s])
          (violation_boxes ++ [person_box])
      else evaluate_loop conf_threshold rest violations violation_boxes
  end.

Definition evaluate_violations (arg : mapping_arg) (conf_threshold : Q)
    : list violation * list pyval :=
  evaluate_loop conf_threshold (normalise_mapping arg) [] [].

Definition detect_violations (detections : list pyobj) (iou_thresh conf_threshold : Q)
    : result (list violation) :=
  m ← match_ppe_to_person detections iou_thresh;
  Ok (fst (evaluate_violations (AsDict m) conf_threshold)).

(** ** app.py: the main loop *)

Module App.

Definition LOG_COOLDOWN : Q := 5.
Definition EMAIL_COOLDOWN : Q := 60.
Definition DEFAULT_CONF : Q := 0.35.
Definition DEFAULT_RUN_RATE : Z := 8.

(** The widgets read by the loop. *)
Record config : Type := mk_config {
  conf_slider : Q;
  run_rate : Z;
  enable_email : bool;
  smtp_host : string;
  smtp_port : Z;
  use_ssl : bool;
  smtp_user : string;
  smtp_password : string;
  recipient : string
}.

(** [st.session_state], restricted to what the loop reads and writes. *)
Record session : Type := mk_session {
  last_log_time : gmap Z Q;
  last_frame_time : Q;
  last_email_time : Q
}.

(** The session as the script initialises it. *)
Definition initial_session : session := mk_session ∅ 0 0.

(** A row handed to [storage.append_log].  [row_person] is [None] for the
    empty [person_id] of a frame summary and [Some n] for the text
    [person_n]; [row_time] is the clock reading that let the row through and
    stands for its formatted timestamp. *)
Record log_row : Type := mk_log_row {
  row_time : Q;
  people_count : nat;
  violations_count : nat;
  row_person : option Z;
  missing : string
}.

(** One call of [send_email_alert]: its arguments, and in [mail_time]
    the reading [now_email] taken just before the call. *)
Record mail : Type := mk_mail {
  mail_time : Q;
  mail_host : string;
  mail_port : Z;
  mail_user : string;
  mail_password : string;
  mail_subject : string;
  mail_body : string;
  mail_recipients : list string;
  mail_ssl : bool
}.

(** What the loop cannot decide: [time.time()] returns [clock n] at its
    [n]-th call, and the [k]-th call of [send_email_alert] returns
    [delivers k]. *)
Record env : Type := mk_env {
  clock : nat -> Q;
  delivers : nat -> bool
}.

Record world : Type := mk_world {
  sess : session;
  ticks : nat;
  logs : list log_row;
  mails : list mail
}.

Definition initial_world : world := mk_world initial_session 0 [] [].

(** [time.time()]. *)
Definition time_time (e : env) (w : world) : Q * world :=
  (clock e (ticks w), mk_world (sess w) (S (ticks w)) (logs w) (mails w)).

(** Modelled from the spec: [storage.append_log(record)], whose module is
    not among the sources, appends one whole row to the log store. *)
Definition append_log (r : log_row) (w : world) : world :=
  mk_world (sess w) (ticks w) (logs w ++ [r]) (mails w).

(** Modelled from the spec: [send_email_alert(..)] of [core/emailer.py],
    whose module is not among the sources, makes one synchronous attempt
    and returns whether it succeeded. *)
Definition send_email_alert (e : env) (m : mail) (w : world) : bool * world :=
  (delivers e (length (mails w)),
   mk_world (sess w) (ticks w) (logs w) (mails w ++ [m])).

Definition set_session (s : session) (w : world) : world :=
  mk_world s (ticks w) (logs w) (mails w).

Definition set_last_frame_time (t : Q) (s : session) : session :=
  mk_session (last_log_time s) t (last_email_time s).

Definition set_last_email_time (t : Q) (s : session) : session :=
  mk_session (last_log_time s) (last_frame_time s) t.

Definition set_last_log_time (pid : Z) (t : Q) (s : session) : session :=
  mk_session (<[pid := t]> (last_log_time s)) (last_frame_time s) (last_email_time s).

(** What [Detector.predict] returns for one object: an integer box, a
    confidence, a class index and its name. *)
Record prediction : Type := mk_prediction {
  p_box : Z * Z * Z * Z;
  p_conf : Q;
  p_cls : Z;
  p_label : string
}.

Definition detection_of (p : prediction) : pyobj :=
  let '(x1, y1, x2, y2) := p_box p in
  Dict (predicted (box4 x1 y1 x2 y2) (p_conf p) (p_cls p) (lower (p_label p))).

(** The names appended to [missing], joined by a comma. *)
Definition missing_text (v : violation) : string :=
  String.concat ","
    ((if missing_helmet v then ["helmet"%string] else []) ++
     (if missing_vest v then ["vest"%string] else [])).

(** One iteration of [for v in violations]. *)
Definition log_violation (e : env) (n_people : nat) (w : world) (v : violation) : world :=
  let pid := person_idx v in
  let last := default 0 (last_log_time (sess w) !! pid) in
  let '(t, w1) := time_time e w in
  if Qlt_bool (t - last) LOG_COOLDOWN then w1
  else
    let w2 := append_log (mk_log_row t n_people 1 (Some pid) (missing_text v)) w1 in
    let '(t', w3) := time_time e w2 in
    set_session (set_last_log_time pid t' (sess w3)) w3.

Definition log_violations (e : env) (n_people : nat) (w : world)
    (violations : list violation) : world :=
  fold_left (log_violation e n_people) violations w.

(** The e-mail block. *)
Definition email_alerts (cfg : config) (e : env) (violations : list violation)
    (w : world) : world :=
  if enable_email cfg
     && negb (Nat.eqb (length violations) 0)
     && truthy (smtp_host cfg) && truthy (smtp_user cfg)
     && truthy (smtp_password cfg) && truthy (recipient cfg)
  then
    let '(now_email, w1) := time_time e w in
    if Qle_bool EMAIL_COOLDOWN (now_email - last_email_time (sess w1)) then
      let subject := "[SafetyEye] PPE Violations Detected"%string in
      let body := ("Total violations: " ++ str_of_int (Z.of_nat (length violations)))%string in
      let m := mk_mail now_email (smtp_host cfg) (smtp_port cfg) (smtp_user cfg)
                 (smtp_password cfg) subject body [recipient cfg] (use_ssl cfg) in
      let '(ok, w2) := send_email_alert e m w1 in
      if (ok : bool) then set_session (set_last_email_time now_email (sess w2)) w2
      else w2
    else w1
  else w.

Inductive outcome : Type :=
| Skipped
| Processed (violations : list violation) (violation_boxes : list pyval)
| Crashed.

(** [1.0 / float(run_rate)]; the widget keeps [run_rate] between 1 and
    30. *)
Definition min_interval (cfg : config) : Q := 1 / inject_Z (run_rate cfg).

(** One pass of the [while] loop for a frame that was read, with the
    detector's answer for it.  Drawing and display change no state and
    are left out. *)
Definition process_frame (cfg : config) (e : env) (frame : list prediction)
    (w : world) : outcome * world :=
  let '(now, w1) := time_time e w in
  if Qlt_bool (now - last_frame_time (sess w1)) (min_interval cfg) then (Skipped, w1)
  else
    let w2 := set_session (set_last_frame_time now (sess w1)) w1 in
    let detections := map detection_of frame in
    match match_ppe_to_person detections 0.12 with
    | Raised => (Crashed, w2)
    | Ok m =>
        let '(violations, violation_boxes) :=
          evaluate_violations (AsDict m) (conf_slider cfg) in
        let w3 := append_log
                    (mk_log_row now (length m) (length violations) None EmptyString) w2 in
        let w4 := log_violations e (length m) w3 violations in
        let w5 := email_alerts cfg e violations w4 in
        (Processed violations violation_boxes, w5)
    end.

Definition is_processed (o : outcome) : bool :=
  match o with
  | Processed _ _ => true
  | _ => false
  end.

(** The loop over the frames the source delivers; an exception leaves
    the loop. *)
Fixpoint run (cfg : config) (e : env) (frames : list (list prediction))
    (w : world) : list outcome * world :=
  match frames with
  | [] => ([], w)
  | frame :: rest =>
      match process_frame cfg e frame w with
      | (Crashed, w') => ([Crashed], w')
      | (o, w') =>
          let '(os, w'') := run cfg e rest w' in
          (o :: os, w'')
      end
  end.

End App.

(** ** core/utils.py: the colour of a box in [draw_boxes] *)

(** Python's [==] on the values a box may hold: numbers by value, text
    and [None] by identity of content, a list only with a list and a
    tuple only with a tuple, item by item. *)
Fixpoint py_eq (a b : pyval) : bool :=
  match a, b with
  | VNone, VNone => true
  | VInt x, VInt y => Z.eqb x y
  | VInt x, VFloat q => Qeq_bool (inject_Z x) q
  | VFloat q, VInt y => Qeq_bool q (inject_Z y)
  | VFloat p, VFloat q => Qeq_bool p q
  | VStr s, VStr t => String.eqb s t
  | VList xs, VList ys =>
      (fix items (xs ys : list pyval) : bool :=
         match xs, ys with
         | [], [] => true
         | x :: xs', y :: ys' => py_eq x y && items xs' ys'
         | _, _ => false
         end) xs ys
  | VTuple xs, VTuple ys =>
      (fix items (xs ys : list pyval) : bool :=
         match xs, ys with
         | [], [] => true
         | x :: xs', y :: ys' => py_eq x y && items xs' ys'
         | _, _ => false
         end) xs ys
  | _, _ => false
  end.

(** A colour, as the triple handed to OpenCV. *)
Definition color : Type := (Z * Z * Z)%type.
Definition green : color := (0, 200, 0)%Z.
Definition red : color := (0, 0, 255)%Z.

(** [color = (0, 200, 0)], replaced by [(0, 0, 255)] when
    [any(b == d['box'] for b in violation_boxes)]; [violation_boxes] is
    [None] when the caller gives none. *)
Definition box_color (box : pyval) (violation_boxes : option (list pyval)) : color :=
  if existsb (fun b => py_eq b box) (default [] violation_boxes) then red else green.

(** ** core/logger.py *)

Module Logger.

Definition LOG_DIR : string := "logs".

Definition starts_with_slash (s : string) : bool :=
  match s with
  | String c _ => Ascii.eqb c "/"%char
  | EmptyString => false
  end.

Fixpoint ends_with_slash (s : string) : bool :=
  match s with
  | EmptyString => false
  | String c EmptyString => Ascii.eqb c "/"%char
  | String _ r => ends_with_slash r
  end.

(** [os.path.join(a, b)] of POSIX for two components: an absolute [b]
    replaces [a]; otherwise one separator stands between them. *)
Definition path_join (a b : string) : string :=
  if starts_with_slash b then b
  else if (negb (truthy a) || ends_with_slash a)%bool then a ++ b
  else a ++ "/" ++ b.

Definition SNAP_DIR : string := path_join LOG_DIR "violations".

(** What is written as snapshot: a window of the frame or the frame. *)
Inductive crop : Type :=
| Window (y1c y2c x1c x2c : Z)
| WholeFrame.

(** The clamping of the box to a frame of [h] rows and [w] columns, and
    the choice [frame[y1c:y2c, x1c:x2c] if (x2c > x1c and y2c > y1c) else
    frame]. *)
Definition crop_of (bbox : Z * Z * Z * Z) (h w : Z) : crop :=
  let '(x1, y1, x2, y2) := bbox in
  let x1c := Z.max 0 x1 in
  let y1c := Z.max 0 y1 in
  let x2c := Z.min w x2 in
  let y2c := Z.min h y2 in
  if (Z.ltb x1c x2c && Z.ltb y1c y2c)%bool then Window y1c y2c x1c x2c else WholeFrame.

(** [ts.replace(':', '')]. *)
Fixpoint remove_colons (ts : string) : string :=
  match ts with
  | EmptyString => EmptyString
  | String c r =>
      if Ascii.eqb c ":"%char then remove_colons r else String c (remove_colons r)
  end.

Definition snap_name (ts : string) (person_idx : Z) : string :=
  remove_colons ts ++ "_p" ++ str_of_int person_idx ++ ".jpg".

Definition snap_path (ts : string) (person_idx : Z) : string :=
  path_join SNAP_DIR (snap_name ts person_idx).

(** [f"person_{person_idx}" if person_idx >= 0 else ""]. *)
Definition person_id (person_idx : Z) : string :=
  if Z.leb 0 person_idx then "person_" ++ str_of_int person_idx else EmptyString.

Definition missing_names (missing_helmet missing_vest : bool) : string :=
  String.concat ","
    ((if missing_helmet then ["helmet"%string] else []) ++
     (if missing_vest then ["vest"%string] else [])).

(** The row appended to the CSV file, in the order of [FIELDNAMES]. *)
Record csv_row : Type := mk_csv_row {
  csv_timestamp : string;
  csv_person_id : string;
  csv_missing : string;
  csv_people_count : Z;
  csv_violations_count : Z
}.

(** [log_violation], for a time stamp [ts] already formatted and a frame
    of [h] rows and [w] columns: the path returned, what is written
    under it and the row appended.  [conf_summary] is not used by the
    source. *)
Definition log_violation (ts : string) (person_idx : Z)
    (missing_helmet missing_vest : bool) (bbox : Z * Z * Z * Z) (h w : Z)
    : string * crop * csv_row :=
  (snap_path ts person_idx,
   crop_of bbox h w,
   mk_csv_row ts (person_id person_idx) (missing_names missing_helmet missing_vest) 0 1).

End Logger.

(** ** core/detector.py: [_ensure_labels] *)

Module Detector.

(** [str.isspace] on an ASCII character. *)
Definition is_space (c : ascii) : bool :=
  let n := nat_of_ascii c in
  (Nat.leb 9 n && Nat.leb n 13) || (Nat.leb 28 n && Nat.leb n 32).

(** [s.strip() == ""]. *)
Fixpoint blank (s : string) : bool :=
  match s with
  | EmptyString => true
  | String c r => is_space c && blank r
  end.

Definition with_label (l : string) (d : detection) : detection :=
  mk_detection (Some l) (d_cls d) (d_class d) (d_class_id d) (d_category d)
    (d_name d) (d_class_name d) (d_label_text d) (d_box d) (d_conf d).

(** The body of the loop of [_ensure_labels] for one dictionary, with
    [names] the table [self.names] from class index to class name. *)
(** The name chosen by the second half of the loop body: the entry of the
    first class index found, or the first truthy text field. *)
Definition derived_name (names : Z -> option string) (d : detection) : string :=
  match first_present [d_cls d; d_class d; d_class_id d; d_category d] with
  | Some cls_idx => default (str_of_int cls_idx) (names cls_idx)
  | None =>
      default EmptyString
        (first_truthy [d_name d; d_class_name d; d_label d; d_label_text d])
  end.

Definition ensure_label (names : Z -> option string) (d : detection) : detection :=
  let keep :=
    match d_label d with
    | Some s => negb (blank s)
    | None => false
    end in
  if keep then with_label (lower (default EmptyString (d_label d))) d
  else with_label (lower (derived_name names d)) d.

Definition _ensure_labels (names : Z -> option string) (detections : list detection)
    : list detection :=
  map (ensure_label names) detections.

End Detector.

(** * Notions used in the statements *)

(** ** Overlap of two numeric boxes *)

(** Area of the intersection rectangle, as [iou] computes it. *)
Definition inter_area (boxA boxB : coords) : Q :=
  let '(a0, a1, a2, a3) := boxA in
  let '(b0, b1, b2, b3) := boxB in
  Qmax 0 (Qmin a2 b2 - Qmax a0 b0) * Qmax 0 (Qmin a3 b3 - Qmax a1 b1).

(** The denominator of [iou]: both areas floored per side at one, minus
    the intersection. *)
Definition union_area (boxA boxB : coords) : Q :=
  let '(a0, a1, a2, a3) := boxA in
  let '(b0, b1, b2, b3) := boxB in
  Qmax 1 (a2 - a0) * Qmax 1 (a3 - a1) + Qmax 1 (b2 - b0) * Qmax 1 (b3 - b1)
  - inter_area boxA boxB.

(** Two boxes do not overlap: one lies entirely to one side of the
    other, touching edges included. *)
Definition non_overlapping (boxA boxB : coords) : Prop :=
  let '(a0, a1, a2, a3) := boxA in
  let '(b0, b1, b2, b3) := boxB in
  a2 <= b0 \/ b2 <= a0 \/ a3 <= b1 \/ b3 <= a1.

(** [iou] returns a float equal to [v]. *)
Definition iou_is (boxA boxB : pyval) (v : Q) : Prop :=
  exists q, iou boxA boxB = Ok q /\ q == v.

(** The numeric coordinates of an integer box. *)
Definition coords_of (x1 y1 x2 y2 : Z) : coords :=
  (inject_Z x1, inject_Z y1, inject_Z x2, inject_Z y2).

Definition width (box : coords) : Q := let '(x1, _, x2, _) := box in x2 - x1.
Definition height (box : coords) : Q := let '(_, y1, _, y2) := box in y2 - y1.

(** ** Violation rule *)

(** A dictionary with the keys [label], [box], and optionally [conf]
    and [cls]. *)
Definition labelled (label : string) (box : pyval) (conf : option Q) (cls : option Z)
    : detection :=
  mk_detection (Some label) cls None None None None None None (Some box) conf.

(** [float(p.get("conf", 0.0))]. *)
Definition conf_of (p : detection) : Q := default 0 (d_conf p).

(** A detection counts toward [label] at a confidence threshold. *)
Definition counts_as (label : string) (conf_threshold : Q) (p : detection) : Prop :=
  safe_label (Dict p) = label /\ conf_threshold <= conf_of p.

(** The missing rule in the words of the specification: no positive
    signal, or some negative signal. *)
Definition spec_missing (positive negative : string) (conf_threshold : Q)
    (assigned : list detection) : Prop :=
  (~ exists p, In p assigned /\ counts_as positive conf_threshold p) \/
  (exists p, In p assigned /\ counts_as negative conf_threshold p).

(** The violation one person contributes, if any. *)
Definition evaluate_person (conf_threshold : Q) (idx : Z) (i : info) : option violation :=
  let s := signals conf_threshold (ppe i) in
  let missing_helmet := negb (has_helmet s) || has_no_helmet s in
  let missing_vest := negb (has_vest s) || has_no_vest s in
  if missing_helmet || missing_vest
  then Some (mk_violation idx (default zero_box (d_box (person i)))
               missing_helmet missing_vest s)
  else None.

(** The violations of a mapping, person by person in iteration order. *)
Definition reports (conf_threshold : Q) (m : mapping) : list violation :=
  omap (fun e => evaluate_person conf_threshold e.1 e.2) m.

(** The key under which a legacy list item is stored. *)
Definition legacy_key (item : legacy_item) : Z := default 0%Z (li_person_idx item).

(** The violation reported for a person without any equipment. *)
Definition bare_violation (e : Z * info) : violation :=
  mk_violation e.1 (default zero_box (d_box (person e.2))) true true no_signal.

(** ** Association *)

(** The overlap of a person with an equipment box, when [iou] returns. *)
Definition overlap (i : info) (ppe_box : pyval) (ov : Q) : Prop :=
  exists p_box, d_box (person i) = Some p_box /\ iou p_box ppe_box = Ok ov.

(** The IoU rule: [idx] is the first person, in iteration order, whose
    overlap is the greatest, and that overlap is positive and reaches
    the threshold. *)
Definition iou_winner (m : mapping) (ppe_box : pyval) (iou_thresh : Q) (idx : Z) : Prop :=
  exists before i after ov,
    m = before ++ (idx, i) :: after /\
    overlap i ppe_box ov /\ 0 < ov /\ iou_thresh <= ov /\
    List.Forall (fun e => exists o, overlap e.2 ppe_box o /\ o < ov) before /\
    List.Forall (fun e => exists o, overlap e.2 ppe_box o /\ o <= ov) after.

(** No person qualifies under the IoU rule. *)
Definition no_iou_candidate (m : mapping) (ppe_box : pyval) (iou_thresh : Q) : Prop :=
  List.Forall (fun e => exists o, overlap e.2 ppe_box o /\ ~ (0 < o /\ iou_thresh <= o)) m.

(** The point [c] lies in the box, borders included. *)
Definition point_in (box : coords) (c : Q * Q) : Prop :=
  let '(x1, y1, x2, y2) := box in
  (x1 <= c.1 /\ c.1 <= x2) /\ (y1 <= c.2 /\ c.2 <= y2).

(** The same test as a boolean. *)
Definition point_in_bool (box : coords) (c : Q * Q) : bool :=
  let '(x1, y1, x2, y2) := box in
  Qle_bool x1 c.1 && Qle_bool c.1 x2 && Qle_bool y1 c.2 && Qle_bool c.2 y2.

(** The box of a person holds four numbers and contains, or does not
    contain, the point [c]. *)
Definition inside (i : info) (c : Q * Q) : Prop :=
  exists b box, d_box (person i) = Some b /\ box_coords b = Ok box /\ point_in box c.

Definition outside (i : info) (c : Q * Q) : Prop :=
  exists b box, d_box (person i) = Some b /\ box_coords b = Ok box /\ ~ point_in box c.

(** The containment rule: [idx] is the first person whose box contains
    the point. *)
Definition containment_winner (m : mapping) (c : Q * Q) (idx : Z) : Prop :=
  exists before i after,
    m = before ++ (idx, i) :: after /\ inside i c /\
    List.Forall (fun e => outside e.2 c) before.

Definition nobody_contains (m : mapping) (c : Q * Q) : Prop :=
  List.Forall (fun e => outside e.2 c) m.

(** A dictionary whose [box] holds four numbers. *)
Definition numeric_box (d : detection) : Prop :=
  exists b c, d_box d = Some b /\ box_coords b = Ok c.

Definition numeric_persons (m : mapping) : Prop :=
  List.Forall (fun e => numeric_box (person e.2)) m.

(** ** Gates of the main loop *)

Module Gates.
Import App.

(** Host, sender credentials and recipient are filled in. *)
Definition email_configured (cfg : config) : Prop :=
  smtp_host cfg <> EmptyString /\ smtp_user cfg <> EmptyString /\
  smtp_password cfg <> EmptyString /\ recipient cfg <> EmptyString.

(** The throttle as the specification words it: cooldown elapsed,
    violations present, configuration complete. *)
Definition alert_due_as_stated (cfg : config) (e : env)
    (violations : list violation) (w : world) : Prop :=
  EMAIL_COOLDOWN <= clock e (ticks w) - last_email_time (sess w) /\
  violations <> [] /\ email_configured cfg.

(** The throttle of the code: the same, and alerts are switched on. *)
Definition alert_due (cfg : config) (e : env)
    (violations : list violation) (w : world) : Prop :=
  enable_email cfg = true /\ alert_due_as_stated cfg e violations w.

(** The world after a reading of the clock that changes nothing else. *)
Definition tick (w : world) : world :=
  mk_world (sess w) (S (ticks w)) (logs w) (mails w).

Definition processed_count (os : list outcome) : nat :=
  length (filter is_processed os).

(** The stored timestamp of a person, 0 when there is none. *)
Definition last_logged (w : world) (pid : Z) : Q :=
  default 0 (last_log_time (sess w) !! pid).

(** The row written for a violation let through at time [t]. *)
Definition violation_row (t : Q) (n_people : nat) (v : violation) : log_row :=
  mk_log_row t n_people 1 (Some (person_idx v)) (missing_text v).

(** The cooldown as the specification words it: no prior timestamp, or
    the cooldown has elapsed since it. *)
Definition log_due_as_stated (e : env) (w : world) (pid : Z) : Prop :=
  last_log_time (sess w) !! pid = None \/
  exists last, last_log_time (sess w) !! pid = Some last /\
               LOG_COOLDOWN <= clock e (ticks w) - last.

(** The cooldown of the code: an absent timestamp counts as 0. *)
Definition log_due (e : env) (w : world) (pid : Z) : Prop :=
  LOG_COOLDOWN <= clock e (ticks w) - last_logged w pid.

(** The clock never runs backwards. *)
Definition monotone_clock (e : env) : Prop :=
  forall n : nat, clock e n <= clock e (S n).

(** Any two rows of the same person are at least the cooldown apart. *)
Definition rows_spaced (rows : list log_row) : Prop :=
  forall (n1 n2 : nat) (r1 r2 : log_row) (pid : Z),
    (n1 < n2)%nat -> rows !! n1 = Some r1 -> rows !! n2 = Some r2 ->
    row_person r1 = Some pid -> row_person r2 = Some pid ->
    row_time r1 + LOG_COOLDOWN <= row_time r2.

(** What the rows and the table of stored timestamps satisfy together
    along a run: the rows are spaced, and no row of a person is later
    than the person's stored timestamp. *)
Definition cooldown_invariant (w : world) : Prop :=
  rows_spaced (logs w) /\
  forall (n : nat) (r : log_row) (pid : Z),
    logs w !! n = Some r -> row_person r = Some pid ->
    row_time r <= last_logged w pid.

End Gates.

(** Every detection of a mapping comes from the given set. *)
Definition drawn_from (kept : list detection) (m : mapping) : Prop :=
  List.Forall (fun e => In (person e.2) kept /\ List.Forall (fun d => In d kept) (ppe e.2)) m.

(** ** Further notions *)

(** A box with positive width and height, as the data model asks. *)
Definition well_formed (box : coords) : Prop :=
  let '(x1, y1, x2, y2) := box in x1 < x2 /\ y1 < y2.

(** The equipment detections among the cleaned ones, in input order. *)
Definition equipment_of (detections : list pyobj) : list detection :=
  List.filter (fun d => negb (is_person d)) (cleaned detections).

(** The person detections among the cleaned ones, in input order. *)
Definition persons_of (detections : list pyobj) : list detection :=
  List.filter is_person (cleaned detections).

(** How many equipment detections a mapping holds, all persons
    together. *)
Definition assigned_count (m : mapping) : nat :=
  sum_list (map (fun e => length (ppe e.2)) m).

(** All the equipment lists of a mapping, one after the other in
    iteration order. *)
Definition all_ppe (m : mapping) : list detection :=
  concat (map (fun e => ppe e.2) m).

(** The first box lies within the second and is not inverted. *)
Definition box_within (inner outer : coords) : Prop :=
  let '(x1, y1, x2, y2) := inner in
  let '(u1, v1, u2, v2) := outer in
  (u1 <= x1 /\ x1 <= x2 /\ x2 <= u2) /\ (v1 <= y1 /\ y1 <= y2 /\ y2 <= v2).

(** A detection that can set one of the four flags at a threshold: one
    of the four labels, with enough confidence. *)
Definition recognised (conf_threshold : Q) (p : detection) : bool :=
  let lab := safe_label (Dict p) in
  (String.eqb lab "helmet" || String.eqb lab "no_helmet"
   || String.eqb lab "vest" || String.eqb lab "no_vest")
  && Qle_bool conf_threshold (conf_of p).

(** ** Pace of the main loop *)

Module Pace.
Import App Gates.

(** Every attempt made after a delivered mail comes at least the e-mail
    cooldown later. *)
Definition delivered_spaced (e : env) (ms : list mail) : Prop :=
  forall (n1 n2 : nat) (m1 m2 : mail),
    (n1 < n2)%nat -> ms !! n1 = Some m1 -> ms !! n2 = Some m2 ->
    delivers e n1 = true ->
    mail_time m1 + EMAIL_COOLDOWN <= mail_time m2.

Definition mail_invariant (e : env) (w : world) : Prop :=
  delivered_spaced e (mails w) /\
  forall (n : nat) (m : mail),
    mails w !! n = Some m -> delivers e n = true ->
    mail_time m <= last_email_time (sess w).

(** A frame summary: the row without person. *)
Definition is_summary (r : log_row) : Prop := row_person r = None.

(** Any two frame summaries are at least the minimum interval apart. *)
Definition frames_spaced (cfg : config) (rows : list log_row) : Prop :=
  forall (n1 n2 : nat) (r1 r2 : log_row),
    (n1 < n2)%nat -> rows !! n1 = Some r1 -> rows !! n2 = Some r2 ->
    is_summary r1 -> is_summary r2 ->
    row_time r1 + min_interval cfg <= row_time r2.

Definition frame_invariant (cfg : config) (w : world) : Prop :=
  frames_spaced cfg (logs w) /\
  forall (n : nat) (r : log_row),
    logs w !! n = Some r -> is_summary r ->
    row_time r <= last_frame_time (sess w).

(** The rows a frame may write for its violations: each is the row of
    one of them, with [n_people] persons. *)
Definition rows_of (n_people : nat) (vs : list violation) (rows : list log_row) : Prop :=
  List.Forall (fun r => exists v t, In v vs /\ r = violation_row t n_people v) rows /\
  (length rows <= length vs)%nat.

End Pace.

(** The value under [box] of the dictionary [Detector.predict] returns
    for one object, which [draw_boxes] reads as [d['box']]. *)
Definition drawn_box (p : App.prediction) : pyval :=
  let '(x1, y1, x2, y2) := App.p_box p in box4 x1 y1 x2 y2.

(** * Properties *)

(** ** Arithmetic helpers *)

Lemma Qlt_bool_iff (a b : Q) : Qlt_bool a b = true <-> a < b.
Proof.
  unfold Qlt_bool. rewrite negb_true_iff. split.
  - intros H. apply Qnot_le_lt. intros Hle.
    apply Qle_bool_iff in Hle. congruence.
  - intros H. destruct (Qle_bool b a) eqn:E; [|reflexivity].
    apply Qle_bool_iff in E. apply Qlt_not_le in H. contradiction.
Qed.

Lemma Qlt_bool_false_iff (a b : Q) : Qlt_bool a b = false <-> b <= a.
Proof.
  unfold Qlt_bool. rewrite negb_false_iff. apply Qle_bool_iff.
Qed.

Lemma Qle_bool_false_iff (a b : Q) : Qle_bool a b = false <-> b < a.
Proof.
  rewrite <- Qlt_bool_iff. unfold Qlt_bool.
  destruct (Qle_bool a b); simpl; split; congruence.
Qed.

(** ** IoU *)

Lemma union_area_ge_1 (boxA boxB : coords) : 1 <= union_area boxA boxB.
Proof.
  unfold union_area, inter_area.
  destruct boxA as [[[a0 a1] a2] a3], boxB as [[[b0 b1] b2] b3].
  pose proof (Q.le_min_l a2 b2). pose proof (Q.le_max_l a0 b0).
  pose proof (Q.le_min_l a3 b3). pose proof (Q.le_max_l a1 b1).
  set (xB := Qmin a2 b2) in *. set (xA := Qmax a0 b0) in *.
  set (yB := Qmin a3 b3) in *. set (yA := Qmax a1 b1) in *.
  clearbody xA xB yA yB.
  assert (HW : Qmax 0 (xB - xA) <= Qmax 1 (a2 - a0)).
  { apply Q.max_lub.
    - eapply Qle_trans; [|apply Q.le_max_l]. lra.
    - eapply Qle_trans; [|apply Q.le_max_r]. lra. }
  assert (HH : Qmax 0 (yB - yA) <= Qmax 1 (a3 - a1)).
  { apply Q.max_lub.
    - eapply Qle_trans; [|apply Q.le_max_l]. lra.
    - eapply Qle_trans; [|apply Q.le_max_r]. lra. }
  pose proof (Q.le_max_l 0 (xB - xA)). pose proof (Q.le_max_l 0 (yB - yA)).
  pose proof (Q.le_max_l 1 (a2 - a0)). pose proof (Q.le_max_l 1 (a3 - a1)).
  pose proof (Q.le_max_l 1 (b2 - b0)). pose proof (Q.le_max_l 1 (b3 - b1)).
  set (iw := Qmax 0 (xB - xA)) in *. set (ih := Qmax 0 (yB - yA)) in *.
  set (wa := Qmax 1 (a2 - a0)) in *. set (ha := Qmax 1 (a3 - a1)) in *.
  set (wb := Qmax 1 (b2 - b0)) in *. set (hb := Qmax 1 (b3 - b1)) in *.
  clearbody iw ih wa ha wb hb. nra.
Qed.

(** The guard [union > 0] of the source always holds: [iou] is the
    ratio. *)
Lemma iou_coords_ratio (boxA boxB : coords) :
  iou_coords boxA boxB == inter_area boxA boxB / union_area boxA boxB.
Proof.
  pose proof (union_area_ge_1 boxA boxB) as HU.
  assert (Hpos : Qlt_bool 0 (union_area boxA boxB) = true)
    by (apply Qlt_bool_iff; lra).
  unfold union_area, inter_area, iou_coords in *.
  destruct boxA as [[[a0 a1] a2] a3], boxB as [[[b0 b1] b2] b3].
  cbv zeta. rewrite Hpos. reflexivity.
Qed.

Lemma Qdiv_eq_1 (i u : Q) : 0 < u -> (i / u == 1 <-> i == u).
Proof.
  intros Hu. split; intros H.
  - assert (E : i == i / u * u) by (field; lra).
    rewrite H in E. lra.
  - rewrite H. field. lra.
Qed.

Lemma inter_area_non_overlapping (boxA boxB : coords) :
  non_overlapping boxA boxB -> inter_area boxA boxB == 0.
Proof.
  unfold non_overlapping, inter_area.
  destruct boxA as [[[a0 a1] a2] a3], boxB as [[[b0 b1] b2] b3].
  pose proof (Q.le_min_l a2 b2). pose proof (Q.le_min_r a2 b2).
  pose proof (Q.le_max_l a0 b0). pose proof (Q.le_max_r a0 b0).
  pose proof (Q.le_min_l a3 b3). pose proof (Q.le_min_r a3 b3).
  pose proof (Q.le_max_l a1 b1). pose proof (Q.le_max_r a1 b1).
  intros [Hs | [Hs | [Hs | Hs]]].
  - rewrite (Q.max_l 0 (Qmin a2 b2 - Qmax a0 b0)) by lra. ring.
  - rewrite (Q.max_l 0 (Qmin a2 b2 - Qmax a0 b0)) by lra. ring.
  - rewrite (Q.max_l 0 (Qmin a3 b3 - Qmax a1 b1)) by lra. ring.
  - rewrite (Q.max_l 0 (Qmin a3 b3 - Qmax a1 b1)) by lra. ring.
Qed.

Lemma iou_coords_non_overlapping (boxA boxB : coords) :
  non_overlapping boxA boxB -> iou_coords boxA boxB == 0.
Proof.
  intros H. rewrite iou_coords_ratio, (inter_area_non_overlapping _ _ H).
  unfold Qdiv. ring.
Qed.

Lemma iou_coords_same (box : coords) :
  iou_coords box box == 1 <-> 1 <= width box /\ 1 <= height box.
Proof.
  rewrite iou_coords_ratio.
  pose proof (union_area_ge_1 box box) as HU.
  rewrite Qdiv_eq_1 by lra. clear HU.
  unfold union_area, inter_area, width, height.
  destruct box as [[[x1 y1] x2] y2].
  rewrite !Q.max_id, !Q.min_id.
  set (w := x2 - x1). set (h := y2 - y1). clearbody w h.
  destruct (Q.max_spec 0 w) as [[? E0w] | [? E0w]];
    destruct (Q.max_spec 0 h) as [[? E0h] | [? E0h]];
    destruct (Q.max_spec 1 w) as [[? E1w] | [? E1w]];
    destruct (Q.max_spec 1 h) as [[? E1h] | [? E1h]];
    rewrite E0w, E0h, E1w, E1h; split; try (intros [? ?]); try intros ?;
    try split; try nra.
Qed.

Lemma first_four_box_coords (box : pyval) (c : coords) :
  box_coords box = Ok c -> first_four box = Ok c.
Proof.
  unfold box_coords, first_four.
  destruct (as_sequence box) as [[|v1 [|v2 [|v3 [|v4 [|v5 xs]]]]]|]; try discriminate.
  auto.
Qed.

Lemma iou_numeric (boxA boxB : pyval) (a b : coords) :
  box_coords boxA = Ok a -> box_coords boxB = Ok b ->
  iou boxA boxB = Ok (iou_coords a b).
Proof.
  intros Ha Hb. unfold iou.
  rewrite (first_four_box_coords _ _ Ha), (first_four_box_coords _ _ Hb). reflexivity.
Qed.

Lemma box_coords_box4 (x1 y1 x2 y2 : Z) :
  box_coords (box4 x1 y1 x2 y2) = Ok (coords_of x1 y1 x2 y2).
Proof. reflexivity. Qed.

Lemma iou_is_numeric (boxA boxB : pyval) (a b : coords) (v : Q) :
  box_coords boxA = Ok a -> box_coords boxB = Ok b ->
  (iou_is boxA boxB v <-> iou_coords a b == v).
Proof.
  intros Ha Hb. unfold iou_is. rewrite (iou_numeric _ _ _ _ Ha Hb). split.
  - intros [q [E Hq]]. injection E as <-. exact Hq.
  - intros H. eexists; split; [reflexivity | exact H].
Qed.

Lemma one_le_diff_inject_Z (x1 x2 : Z) :
  1 <= inject_Z x2 - inject_Z x1 <-> (x1 < x2)%Z.
Proof.
  unfold Qminus. rewrite <- inject_Z_opp, <- inject_Z_plus.
  change 1 with (inject_Z 1). rewrite <- Zle_Qle. lia.
Qed.

(** C4, as stated, fails: a box of zero width compared with itself has
    overlap 0.0 and not 1.0, because the two areas are floored at one
    while the intersection is not. *)
Lemma iou_identical_degenerate_counterexample :
  iou_is (box4 0 0 0 10) (box4 0 0 0 10) 0 /\
  ~ iou_is (box4 0 0 0 10) (box4 0 0 0 10) 1.
Proof.
  split.
  - eexists. split; [reflexivity | reflexivity].
  - intros [q [E Hq]]. vm_compute in E. injection E as <-. discriminate Hq.
Qed.

(** C4, amended: [iou] is 0.0 for two boxes that do not overlap,
    degenerate ones included; for two identical boxes it is 1.0 exactly
    when the box is at least one unit wide and one unit high, which for
    integer pixel boxes means [x1 < x2] and [y1 < y2]; an integer box of
    no width or no height compared with itself gives 0.0. *)
Theorem iou_identical_and_non_overlapping :
  (forall (boxA boxB : pyval) (a b : coords),
      box_coords boxA = Ok a -> box_coords boxB = Ok b ->
      non_overlapping a b -> iou_is boxA boxB 0) /\
  (forall (box : pyval) (c : coords),
      box_coords box = Ok c ->
      (iou_is box box 1 <-> 1 <= width c /\ 1 <= height c)) /\
  (forall x1 y1 x2 y2 : Z,
      iou_is (box4 x1 y1 x2 y2) (box4 x1 y1 x2 y2) 1 <-> (x1 < x2 /\ y1 < y2)%Z) /\
  (forall x1 y1 x2 y2 : Z,
      (x2 <= x1 \/ y2 <= y1)%Z ->
      iou_is (box4 x1 y1 x2 y2) (box4 x1 y1 x2 y2) 0).
Proof.
  split; [|split; [|split]].
  - intros boxA boxB a b Ha Hb Hno.
    apply (iou_is_numeric _ _ _ _ _ Ha Hb), iou_coords_non_overlapping, Hno.
  - intros box c Hc.
    rewrite (iou_is_numeric _ _ _ _ _ Hc Hc). apply iou_coords_same.
  - intros x1 y1 x2 y2.
    rewrite (iou_is_numeric _ _ _ _ _
               (box_coords_box4 x1 y1 x2 y2) (box_coords_box4 x1 y1 x2 y2)).
    rewrite iou_coords_same. unfold width, height, coords_of.
    rewrite !one_le_diff_inject_Z. reflexivity.
  - intros x1 y1 x2 y2 Hd.
    apply (iou_is_numeric _ _ _ _ _
             (box_coords_box4 x1 y1 x2 y2) (box_coords_box4 x1 y1 x2 y2)).
    apply iou_coords_non_overlapping. unfold non_overlapping, coords_of.
    destruct Hd as [Hd | Hd]; rewrite Zle_Qle in Hd; auto.
Qed.

Lemma iou_identical_and_non_overlapping_witness :
  iou_is (box4 0 0 10 10) (box4 20 0 30 10) 0 /\
  iou_is (box4 10 10 110 210) (box4 10 10 110 210) 1 /\
  iou_is (box4 3 3 3 9) (box4 3 3 3 9) 0.
Proof.
  destruct iou_identical_and_non_overlapping as [Hno [_ [Hsame Hdeg]]].
  split; [|split].
  - apply (Hno _ _ (coords_of 0 0 10 10) (coords_of 20 0 30 10));
      [reflexivity | reflexivity |].
    left. vm_compute. discriminate.
  - apply Hsame. lia.
  - apply Hdeg. lia.
Defined.

(** ** The violation rule *)

(** C1: the end-to-end scenario.  The person detection carries any
    confidence and the three detections any class index. *)
Theorem end_to_end_scenario :
  forall (person_conf : option Q) (c0 c1 c2 : option Z),
    let p := labelled "person" (box4 10 10 110 210) person_conf c0 in
    let nv := labelled "no_vest" (box4 20 20 100 150) (Some 0.8) c1 in
    let h := labelled "helmet" (box4 10 10 60 60) (Some 0.9) c2 in
    match_ppe_to_person [Dict p; Dict nv; Dict h] 0.12
      = Ok [(0%Z, mk_info p [nv; h])] /\
    evaluate_violations (AsDict [(0%Z, mk_info p [nv; h])]) 0.35
      = ([mk_violation 0 (box4 10 10 110 210) false true
            (mk_details true false false true)],
         [box4 10 10 110 210]).
Proof. intros. split; reflexivity. Qed.

Lemma evaluate_loop_reports (thr : Q) (items : mapping) :
  forall vs boxes,
    evaluate_loop thr items vs boxes
    = (vs ++ reports thr items, boxes ++ map person_box (reports thr items)).
Proof.
  induction items as [|[idx i] rest IH]; intros vs boxes; simpl.
  - unfold reports. simpl. rewrite !app_nil_r. reflexivity.
  - unfold reports in *. simpl. unfold evaluate_person.
    destruct (negb (has_helmet (signals thr (ppe i))) || has_no_helmet (signals thr (ppe i))
              || (negb (has_vest (signals thr (ppe i))) || has_no_vest (signals thr (ppe i))));
      simpl.
    + rewrite IH, <- !app_assoc. reflexivity.
    + apply IH.
Qed.

Lemma evaluate_violations_reports (arg : mapping_arg) (thr : Q) :
  evaluate_violations arg thr
  = (reports thr (normalise_mapping arg),
     map person_box (reports thr (normalise_mapping arg))).
Proof. unfold evaluate_violations. rewrite evaluate_loop_reports. reflexivity. Qed.

(** C9: the two outputs of [evaluate_violations] correspond index-wise. *)
Theorem violation_boxes_correspond :
  forall (arg : mapping_arg) (conf_threshold : Q),
    let violations := fst (evaluate_violations arg conf_threshold) in
    let violation_boxes := snd (evaluate_violations arg conf_threshold) in
    length violation_boxes = length violations /\
    violation_boxes = map person_box violations /\
    forall n : nat, violation_boxes !! n = person_box <$> violations !! n.
Proof.
  intros arg thr. cbv zeta. rewrite evaluate_violations_reports. simpl.
  split; [|split].
  - apply length_map.
  - reflexivity.
  - intros n. apply list_lookup_fmap.
Qed.

(** The [if]/[elif] chain sets each flag independently, because the four
    labels are distinct. *)
Lemma scan_ppe_flags (thr : Q) (acc : details) (p : detection) :
  let hit l := String.eqb (safe_label (Dict p)) l && Qle_bool thr (conf_of p) in
  has_helmet (scan_ppe thr acc p) = has_helmet acc || hit "helmet"%string /\
  has_no_helmet (scan_ppe thr acc p) = has_no_helmet acc || hit "no_helmet"%string /\
  has_vest (scan_ppe thr acc p) = has_vest acc || hit "vest"%string /\
  has_no_vest (scan_ppe thr acc p) = has_no_vest acc || hit "no_vest"%string.
Proof.
  cbv zeta. unfold scan_ppe, conf_of.
  set (lab := safe_label (Dict p)). clearbody lab.
  set (ok := Qle_bool thr (default 0 (d_conf p))). clearbody ok.
  destruct acc as [a b c d]; simpl.
  destruct ok; rewrite ?andb_false_r, ?andb_true_r, ?orb_false_r; [|auto].
  destruct (String.eqb_spec lab "helmet") as [-> | _]; simpl;
    [rewrite ?orb_true_r, ?orb_false_r; auto|].
  destruct (String.eqb_spec lab "no_helmet") as [-> | _]; simpl;
    [rewrite ?orb_true_r, ?orb_false_r; auto|].
  destruct (String.eqb_spec lab "vest") as [-> | _]; simpl;
    [rewrite ?orb_true_r, ?orb_false_r; auto|].
  destruct (String.eqb_spec lab "no_vest") as [-> | _]; simpl;
    rewrite ?orb_true_r, ?orb_false_r; auto.
Qed.

Lemma hit_counts_as (thr : Q) (p : detection) (l : string) :
  String.eqb (safe_label (Dict p)) l && Qle_bool thr (conf_of p) = true
  <-> counts_as l thr p.
Proof.
  unfold counts_as. rewrite andb_true_iff, String.eqb_eq, Qle_bool_iff. reflexivity.
Qed.

Lemma fold_scan_flags (thr : Q) (l : list detection) :
  forall acc,
    let s := fold_left (scan_ppe thr) l acc in
    (has_helmet s = true <->
       has_helmet acc = true \/ exists p, In p l /\ counts_as "helmet" thr p) /\
    (has_no_helmet s = true <->
       has_no_helmet acc = true \/ exists p, In p l /\ counts_as "no_helmet" thr p) /\
    (has_vest s = true <->
       has_vest acc = true \/ exists p, In p l /\ counts_as "vest" thr p) /\
    (has_no_vest s = true <->
       has_no_vest acc = true \/ exists p, In p l /\ counts_as "no_vest" thr p).
Proof.
  induction l as [|p rest IH]; intros acc; cbv zeta; simpl.
  - repeat split; auto; intros [H | [p [[] _]]]; exact H.
  - destruct (IH (scan_ppe thr acc p)) as [H1 [H2 [H3 H4]]].
    destruct (scan_ppe_flags thr acc p) as [E1 [E2 [E3 E4]]].
    rewrite H1, H2, H3, H4, E1, E2, E3, E4, !orb_true_iff, !hit_counts_as.
    repeat split;
      (intros [[H | H] | [q [Hq Hc]]];
       [ left; exact H
       | right; exists p; split; [left; reflexivity | exact H]
       | right; exists q; split; [right; exact Hq | exact Hc] ])
      || (intros [H | [q [[<- | Hq] Hc]]];
          [ left; left; exact H
          | left; right; exact Hc
          | right; exists q; split; assumption ]).
Qed.

Lemma signals_spec (thr : Q) (l : list detection) :
  (has_helmet (signals thr l) = true <-> exists p, In p l /\ counts_as "helmet" thr p) /\
  (has_no_helmet (signals thr l) = true <-> exists p, In p l /\ counts_as "no_helmet" thr p) /\
  (has_vest (signals thr l) = true <-> exists p, In p l /\ counts_as "vest" thr p) /\
  (has_no_vest (signals thr l) = true <-> exists p, In p l /\ counts_as "no_vest" thr p).
Proof.
  unfold signals. destruct (fold_scan_flags thr l no_signal) as [H1 [H2 [H3 H4]]].
  cbv zeta in *. simpl in *.
  split; [|split; [|split]].
  - rewrite H1. split; [intros [H | H]; [discriminate | exact H] | auto].
  - rewrite H2. split; [intros [H | H]; [discriminate | exact H] | auto].
  - rewrite H3. split; [intros [H | H]; [discriminate | exact H] | auto].
  - rewrite H4. split; [intros [H | H]; [discriminate | exact H] | auto].
Qed.

(** The flags computed from the signals agree with the rule of the
    specification. *)
Lemma missing_flags_spec (thr : Q) (l : list detection) :
  let s := signals thr l in
  (negb (has_helmet s) || has_no_helmet s = true
     <-> spec_missing "helmet" "no_helmet" thr l) /\
  (negb (has_vest s) || has_no_vest s = true
     <-> spec_missing "vest" "no_vest" thr l).
Proof.
  cbv zeta. unfold spec_missing.
  destruct (signals_spec thr l) as [H1 [H2 [H3 H4]]].
  rewrite <- H1, <- H2, <- H3, <- H4, !orb_true_iff, !negb_true_iff.
  split; split; (intros [H | H]; [left | right; exact H]).
  - congruence.
  - destruct (has_helmet (signals thr l)); [exfalso; apply H|]; reflexivity.
  - congruence.
  - destruct (has_vest (signals thr l)); [exfalso; apply H|]; reflexivity.
Qed.

Lemma evaluate_person_spec (thr : Q) (idx : Z) (i : info) :
  match evaluate_person thr idx i with
  | Some v =>
      person_idx v = idx /\
      person_box v = default zero_box (d_box (person i)) /\
      violation_details v = signals thr (ppe i) /\
      (missing_helmet v = true <-> spec_missing "helmet" "no_helmet" thr (ppe i)) /\
      (missing_vest v = true <-> spec_missing "vest" "no_vest" thr (ppe i))
  | None =>
      ~ spec_missing "helmet" "no_helmet" thr (ppe i) /\
      ~ spec_missing "vest" "no_vest" thr (ppe i)
  end.
Proof.
  destruct (missing_flags_spec thr (ppe i)) as [Hh Hv]. cbv zeta in *.
  unfold evaluate_person.
  destruct (negb (has_helmet (signals thr (ppe i))) || has_no_helmet (signals thr (ppe i))) eqn:Eh;
    destruct (negb (has_vest (signals thr (ppe i))) || has_no_vest (signals thr (ppe i))) eqn:Ev;
    simpl; rewrite ?Eh, ?Ev; repeat split; auto;
    try (apply Hh; reflexivity); try (apply Hv; reflexivity);
    try (intros H; apply Hh in H; discriminate H);
    try (intros H; apply Hv in H; discriminate H);
    try (intros H; discriminate H).
Qed.

Lemma In_reports (thr : Q) (m : mapping) (v : violation) :
  In v (reports thr m) <->
  exists idx i, In (idx, i) m /\ evaluate_person thr idx i = Some v.
Proof.
  unfold reports. rewrite <- list_elem_of_In, list_elem_of_omap. split.
  - intros [[idx i] [Hin Hev]]. exists idx, i. rewrite <- list_elem_of_In. auto.
  - intros [idx [i [Hin Hev]]]. exists (idx, i). rewrite list_elem_of_In. auto.
Qed.

(** C2: a category is reported missing for a person exactly when no
    positive detection of the category reaches the threshold among the
    person's equipment, or some negative one does; a helmet and a
    no_helmet detection, both at 0.9, give [missing_helmet = true] at
    threshold 0.35. *)
Theorem missing_rule :
  forall (arg : mapping_arg) (conf_threshold : Q),
    let m := normalise_mapping arg in
    let violations := fst (evaluate_violations arg conf_threshold) in
    (forall idx i,
        In (idx, i) m ->
        spec_missing "helmet" "no_helmet" conf_threshold (ppe i) ->
        exists v, In v violations /\ person_idx v = idx /\ missing_helmet v = true) /\
    (forall idx i,
        In (idx, i) m ->
        spec_missing "vest" "no_vest" conf_threshold (ppe i) ->
        exists v, In v violations /\ person_idx v = idx /\ missing_vest v = true) /\
    (forall v,
        In v violations ->
        exists i,
          In (person_idx v, i) m /\
          (missing_helmet v = true
             <-> spec_missing "helmet" "no_helmet" conf_threshold (ppe i)) /\
          (missing_vest v = true
             <-> spec_missing "vest" "no_vest" conf_threshold (ppe i))) /\
    (forall (idx : Z) (p : detection) (b1 b2 : pyval) (c1 c2 : option Z),
        let worn := labelled "helmet" b1 (Some 0.9) c1 in
        let absent := labelled "no_helmet" b2 (Some 0.9) c2 in
        exists v,
          fst (evaluate_violations (AsDict [(idx, mk_info p [worn; absent])]) 0.35) = [v] /\
          person_idx v = idx /\ missing_helmet v = true).
Proof.
  intros arg thr. cbv zeta. rewrite evaluate_violations_reports. simpl fst.
  split; [|split; [|split]].
  - intros idx i Hin Hs.
    pose proof (evaluate_person_spec thr idx i) as Hp.
    destruct (evaluate_person thr idx i) as [v|] eqn:Ev.
    + destruct Hp as [Hidx [_ [_ [Hh _]]]].
      exists v. split; [|split; [exact Hidx | apply Hh, Hs]].
      apply In_reports. exists idx, i. auto.
    + destruct Hp as [Hh _]. contradiction.
  - intros idx i Hin Hs.
    pose proof (evaluate_person_spec thr idx i) as Hp.
    destruct (evaluate_person thr idx i) as [v|] eqn:Ev.
    + destruct Hp as [Hidx [_ [_ [_ Hv]]]].
      exists v. split; [|split; [exact Hidx | apply Hv, Hs]].
      apply In_reports. exists idx, i. auto.
    + destruct Hp as [_ Hv]. contradiction.
  - intros v Hin. apply In_reports in Hin. destruct Hin as [idx [i [Hin Ev]]].
    pose proof (evaluate_person_spec thr idx i) as Hp. rewrite Ev in Hp.
    destruct Hp as [Hidx [_ [_ [Hh Hv]]]]. subst idx.
    exists i. auto.
  - intros idx p b1 b2 c1 c2. eexists. split; [reflexivity | split; reflexivity].
Qed.

Lemma missing_rule_witness :
  exists v,
    In v (fst (evaluate_violations
                 (AsDict [(3%Z, mk_info (labelled "person" (box4 0 0 50 100) None None)
                                  [labelled "vest" (box4 5 30 45 80) (Some 0.7) None])])
                 0.35)) /\
    person_idx v = 3%Z /\ missing_helmet v = true.
Proof.
  destruct (missing_rule
              (AsDict [(3%Z, mk_info (labelled "person" (box4 0 0 50 100) None None)
                               [labelled "vest" (box4 5 30 45 80) (Some 0.7) None])])
              0.35) as [Hh _].
  apply (Hh 3%Z (mk_info (labelled "person" (box4 0 0 50 100) None None)
                   [labelled "vest" (box4 5 30 45 80) (Some 0.7) None])).
  - simpl. left. reflexivity.
  - left. intros [p [[<- | []] [Hl _]]]. vm_compute in Hl. discriminate Hl.
Defined.

(** ** The legacy list shape *)

Lemma dict_set_keys {V : Type} (k : Z) (v : V) (d : list (Z * V)) (k' : Z) :
  In k' (map fst (dict_set k v d)) <-> k' = k \/ In k' (map fst d).
Proof.
  induction d as [|[k0 v0] rest IH]; simpl.
  - intuition.
  - destruct (Z.eqb_spec k k0) as [-> | Hne]; simpl.
    + intuition.
    + rewrite IH. intuition.
Qed.

Lemma dict_set_NoDup {V : Type} (k : Z) (v : V) (d : list (Z * V)) :
  List.NoDup (map fst d) -> List.NoDup (map fst (dict_set k v d)).
Proof.
  induction d as [|[k0 v0] rest IH]; simpl; intros Hnd.
  - constructor; [intros [] | constructor].
  - destruct (Z.eqb_spec k k0) as [-> | Hne]; simpl.
    + exact Hnd.
    + inversion Hnd as [|? ? Hnotin Hrest]; subst. constructor.
      * rewrite dict_set_keys. intros [E | Hin]; [congruence | contradiction].
      * apply IH, Hrest.
Qed.

Lemma dict_set_Forall {V : Type} (P : Z * V -> Prop) (k : Z) (v : V) (d : list (Z * V)) :
  P (k, v) -> List.Forall P d -> List.Forall P (dict_set k v d).
Proof.
  intros Hk Hd. induction Hd as [|[k0 v0] rest H0 Hrest IH]; simpl.
  - constructor; [exact Hk | constructor].
  - destruct (Z.eqb k k0); constructor; auto.
Qed.

Lemma dict_set_length {V : Type} (k : Z) (v : V) (d : list (Z * V)) :
  (length (dict_set k v d) <= S (length d))%nat.
Proof.
  induction d as [|[k0 v0] rest IH]; simpl; [lia|].
  destruct (Z.eqb k k0); simpl; lia.
Qed.

Lemma mapping_of_list_invariants (items : list legacy_item) :
  forall tmp : mapping,
    List.NoDup (map fst tmp) ->
    List.Forall (fun e => ppe e.2 = []) tmp ->
    let m := mapping_of_list items tmp in
    List.NoDup (map fst m) /\
    List.Forall (fun e => ppe e.2 = []) m /\
    (forall k, In k (map fst m) <->
               In k (map fst tmp) \/ exists item, In item items /\ legacy_key item = k) /\
    (length m <= length tmp + length items)%nat.
Proof.
  induction items as [|item rest IH]; intros tmp Hnd Hppe; cbv zeta; simpl.
  - split; [exact Hnd | split; [exact Hppe | split; [|lia]]].
    intros k. split; [auto | intros [H | [item [[] _]]]; exact H].
  - match goal with
    | |- context [dict_set ?k ?v tmp] =>
        destruct (IH (dict_set k v tmp)) as [H1 [H2 [H3 H4]]];
        [ apply dict_set_NoDup, Hnd
        | apply dict_set_Forall; [reflexivity | exact Hppe]
        | pose proof (dict_set_length k v tmp) as Hlen ]
    end.
    split; [exact H1 | split; [exact H2 | split; [|lia]]].
    intros k. rewrite H3, dict_set_keys. unfold legacy_key. split.
    + intros [[-> | Hin] | [it [Hin Hk]]].
      * right. exists item. auto.
      * left. exact Hin.
      * right. exists it. auto.
    + intros [Hin | [it [[<- | Hin] Hk]]].
      * left. right. exact Hin.
      * left. left. symmetry. exact Hk.
      * right. exists it. auto.
Qed.

Lemma reports_bare (thr : Q) (m : mapping) :
  List.Forall (fun e => ppe e.2 = []) m -> reports thr m = map bare_violation m.
Proof.
  unfold reports. induction 1 as [|[idx i] rest Hppe Hrest IH]; [reflexivity|].
  simpl in Hppe. change (omap ?f ((idx, i) :: rest))
    with (match f (idx, i) with Some v => v :: omap f rest | None => omap f rest end).
  rewrite IH. unfold evaluate_person. simpl. rewrite Hppe. reflexivity.
Qed.

(** C10: a list argument is rebuilt with empty equipment lists, so every
    rebuilt person is reported with both categories missing and no
    signal; items with the same [person_idx] (0 when absent) share one
    entry. *)
Theorem legacy_list_reports_everyone :
  forall (items : list legacy_item) (conf_threshold : Q),
    let m := normalise_mapping (AsList items) in
    let violations := fst (evaluate_violations (AsList items) conf_threshold) in
    List.Forall (fun e => ppe e.2 = []) m /\
    violations = map bare_violation m /\
    List.Forall (fun v => missing_helmet v = true /\ missing_vest v = true /\
                          violation_details v = no_signal) violations /\
    map person_idx violations = map fst m /\
    List.NoDup (map fst m) /\
    (forall k, In k (map fst m) <-> exists item, In item items /\ legacy_key item = k) /\
    (length m <= length items)%nat.
Proof.
  intros items thr. cbv zeta. rewrite evaluate_violations_reports. simpl.
  destruct (mapping_of_list_invariants items [] (List.NoDup_nil _) (List.Forall_nil _))
    as [Hnd [Hppe [Hkeys Hlen]]].
  cbv zeta in *. simpl in Hkeys, Hlen.
  rewrite (reports_bare thr _ Hppe).
  split; [exact Hppe|]. split; [reflexivity|].
  split; [apply List.Forall_forall; intros v Hv; apply in_map_iff in Hv;
          destruct Hv as [e [<- _]]; auto|].
  split; [rewrite map_map; reflexivity|].
  split; [exact Hnd|]. split; [|exact Hlen].
  intros k. rewrite Hkeys. split; [intros [[] | H]; exact H | auto].
Qed.

(** ** Association of equipment to persons *)

Lemma overlap_functional (i : info) (b : pyval) (o o' : Q) :
  overlap i b o -> overlap i b o' -> o = o'.
Proof.
  intros [p [Hp Ho]] [p' [Hp' Ho']]. congruence.
Qed.

Lemma best_person_step (idx : Z) (i : info) (rest : mapping) (b : pyval)
    (thr bi : Q) (bx : option Z) (o : Q) :
  overlap i b o ->
  best_person ((idx, i) :: rest) b thr bi bx
  = if Qlt_bool bi o && Qle_bool thr o
    then best_person rest b thr o (Some idx)
    else best_person rest b thr bi bx.
Proof.
  intros [p [Hp Ho]]. simpl. unfold getitem_box. rewrite Hp. simpl.
  rewrite Ho. reflexivity.
Qed.

(** Once the best overlap is at least every remaining one, the choice
    stands. *)
Lemma best_person_keeps (after : mapping) (b : pyval) (thr ov : Q) (bx : option Z) :
  List.Forall (fun e => exists o, overlap e.2 b o /\ ~ (ov < o /\ thr <= o)) after ->
  best_person after b thr ov bx = Ok bx.
Proof.
  induction 1 as [|[k j] rest [o [Ho Hno]] Hrest IH]; [reflexivity|].
  simpl in Ho. rewrite (best_person_step _ _ _ _ _ _ _ _ Ho).
  destruct (Qlt_bool ov o && Qle_bool thr o) eqn:E; [|exact IH].
  apply andb_true_iff in E. destruct E as [E1 E2].
  apply Qlt_bool_iff in E1. apply Qle_bool_iff in E2. exfalso. auto.
Qed.

Lemma best_person_winner (before : mapping) :
  forall (idx : Z) (i : info) (after : mapping) (b : pyval) (thr ov bi : Q) (bx : option Z),
    overlap i b ov -> bi < ov -> thr <= ov ->
    List.Forall (fun e => exists o, overlap e.2 b o /\ o < ov) before ->
    List.Forall (fun e => exists o, overlap e.2 b o /\ o <= ov) after ->
    best_person (before ++ (idx, i) :: after) b thr bi bx = Ok (Some idx).
Proof.
  induction before as [|[k j] rest IH]; intros idx i after b thr ov bi bx Hov Hbi Hthr Hb Ha.
  - simpl app. rewrite (best_person_step _ _ _ _ _ _ _ _ Hov).
    assert (E : Qlt_bool bi ov && Qle_bool thr ov = true).
    { apply andb_true_iff. split; [apply Qlt_bool_iff | apply Qle_bool_iff]; assumption. }
    rewrite E. apply best_person_keeps.
    eapply List.Forall_impl; [|exact Ha].
    intros e [o [Ho Hle]]. exists o. split; [exact Ho|]. intros [Hlt _]. lra.
  - inversion Hb as [|? ? [o [Ho Hlt]] Hb']; subst. simpl in Ho.
    simpl app. rewrite (best_person_step _ _ _ _ _ _ _ _ Ho).
    destruct (Qlt_bool bi o && Qle_bool thr o); apply (IH idx i after b thr ov); auto.
Qed.

(** Either somebody wins under the IoU rule or nobody qualifies. *)
Lemma iou_rule_decides (m : mapping) (b : pyval) (thr : Q) :
  forall bi : Q,
    List.Forall (fun e => exists o, overlap e.2 b o) m ->
    List.Forall (fun e => exists o, overlap e.2 b o /\ ~ (bi < o /\ thr <= o)) m \/
    exists before idx i after ov,
      m = before ++ (idx, i) :: after /\
      overlap i b ov /\ bi < ov /\ thr <= ov /\
      List.Forall (fun e => exists o, overlap e.2 b o /\ o < ov) before /\
      List.Forall (fun e => exists o, overlap e.2 b o /\ o <= ov) after.
Proof.
  induction m as [|[k j] rest IH]; intros bi Hdef.
  - left. constructor.
  - inversion Hdef as [|? ? [o Ho] Hdef']; subst. simpl in Ho.
    destruct (Qlt_le_dec bi o) as [Hlt | Hge]; [destruct (Qlt_le_dec o thr) as [Hthr | Hthr]|].
    + (* below the threshold: not selected *)
      destruct (IH bi Hdef') as [Hnone | [before [idx [i [after [ov H]]]]]].
      * left. constructor; [|exact Hnone]. exists o. split; [exact Ho|]. intros [_ ?]. lra.
      * destruct H as [-> [Hov [Hbi [Ht [Hb Ha]]]]]. right.
        exists ((k, j) :: before), idx, i, after, ov.
        repeat split; auto. constructor; [|exact Hb]. exists o. split; [exact Ho | lra].
    + (* selected: the running best becomes [o] *)
      destruct (IH o Hdef') as [Hnone | [before [idx [i [after [ov H]]]]]].
      * right. exists [], k, j, rest, o. repeat split; auto.
        eapply List.Forall_impl; [|exact Hnone].
        intros e [o' [Ho' Hn]]. exists o'. split; [exact Ho'|].
        destruct (Qlt_le_dec o o') as [H1 | H1]; [|exact H1].
        destruct (Qlt_le_dec o' thr) as [H2 | H2]; [lra|]. exfalso. auto.
      * destruct H as [-> [Hov [Hbi [Ht [Hb Ha]]]]]. right.
        exists ((k, j) :: before), idx, i, after, ov.
        repeat split; auto; [lra|]. constructor; [|exact Hb]. exists o. split; [exact Ho | lra].
    + (* not above the running best: not selected *)
      destruct (IH bi Hdef') as [Hnone | [before [idx [i [after [ov H]]]]]].
      * left. constructor; [|exact Hnone]. exists o. split; [exact Ho|]. intros [? _]. lra.
      * destruct H as [-> [Hov [Hbi [Ht [Hb Ha]]]]]. right.
        exists ((k, j) :: before), idx, i, after, ov.
        repeat split; auto. constructor; [|exact Hb]. exists o. split; [exact Ho | lra].
Qed.

Lemma point_in_bool_iff (box : coords) (c : Q * Q) :
  point_in_bool box c = true <-> point_in box c.
Proof.
  destruct box as [[[x1 y1] x2] y2]. unfold point_in_bool, point_in.
  rewrite !andb_true_iff, !Qle_bool_iff. tauto.
Qed.

(** On a numeric box the lazy chain of comparisons is the conjunction. *)
Lemma contains_point_numeric (b : pyval) (box : coords) (c : Q * Q) :
  box_coords b = Ok box ->
  exists t, unpack4 b = Ok t /\ contains_point t c = Ok (point_in_bool box c).
Proof.
  unfold box_coords. intros H.
  assert (Hseq : exists v1 v2 v3 v4,
             as_sequence b = Some [v1; v2; v3; v4] /\
             unpack4 b = Ok (v1, v2, v3, v4)).
  { destruct b as [| | | |xs|xs]; simpl in H; try discriminate H;
      destruct xs as [|v1 [|v2 [|v3 [|v4 [|v5 xs]]]]]; try discriminate H;
      exists v1, v2, v3, v4; split; reflexivity. }
  destruct Hseq as [v1 [v2 [v3 [v4 [Es Eu]]]]]. rewrite Es in H.
  destruct (as_number v1) as [x1|] eqn:E1; [|discriminate H].
  destruct (as_number v2) as [y1|] eqn:E2; [|discriminate H].
  destruct (as_number v3) as [x2|] eqn:E3; [|discriminate H].
  destruct (as_number v4) as [y2|] eqn:E4; [|discriminate H].
  injection H as <-. exists (v1, v2, v3, v4). split; [exact Eu|].
  destruct c as [cx cy]. unfold contains_point, py_le_l, py_le_r, point_in_bool.
  rewrite E1, E2, E3, E4. simpl.
  destruct (Qle_bool x1 cx); simpl; [|reflexivity].
  destruct (Qle_bool cx x2); simpl; [|reflexivity].
  destruct (Qle_bool y1 cy); simpl; reflexivity.
Qed.

Lemma first_containing_step (idx : Z) (i : info) (rest : mapping) (c : Q * Q)
    (b : pyval) (box : coords) :
  d_box (person i) = Some b -> box_coords b = Ok box ->
  first_containing ((idx, i) :: rest) c
  = if point_in_bool box c then Ok (Some idx) else first_containing rest c.
Proof.
  intros Hb Hbox. simpl. unfold getitem_box. rewrite Hb. simpl.
  destruct (contains_point_numeric b box c Hbox) as [t [Eu Ec]].
  rewrite Eu. simpl. rewrite Ec. reflexivity.
Qed.

Lemma first_containing_winner (before : mapping) (idx : Z) (i : info)
    (after : mapping) (c : Q * Q) :
  inside i c ->
  List.Forall (fun e => outside e.2 c) before ->
  first_containing (before ++ (idx, i) :: after) c = Ok (Some idx).
Proof.
  intros [b [box [Hb [Hbox Hin]]]] Hout.
  induction Hout as [|[k j] rest [b' [box' [Hb' [Hbox' Hnot]]]] Hrest IH]; simpl app.
  - rewrite (first_containing_step _ _ _ _ _ _ Hb Hbox).
    apply point_in_bool_iff in Hin. rewrite Hin. reflexivity.
  - simpl in Hb'. rewrite (first_containing_step _ _ _ _ _ _ Hb' Hbox').
    destruct (point_in_bool box' c) eqn:E; [|exact IH].
    apply point_in_bool_iff in E. contradiction.
Qed.

Lemma first_containing_nobody (m : mapping) (c : Q * Q) :
  nobody_contains m c -> first_containing m c = Ok None.
Proof.
  induction 1 as [|[k j] rest [b' [box' [Hb' [Hbox' Hnot]]]] Hrest IH]; [reflexivity|].
  simpl in Hb'. rewrite (first_containing_step _ _ _ _ _ _ Hb' Hbox').
  destruct (point_in_bool box' c) eqn:E; [|exact IH].
  apply point_in_bool_iff in E. contradiction.
Qed.

Lemma assign_target_iou (thr : Q) (m : mapping) (ppe_det : detection)
    (ppe_box : pyval) (idx : Z) :
  d_box ppe_det = Some ppe_box ->
  iou_winner m ppe_box thr idx ->
  assign_target thr m ppe_det = Ok (Some idx).
Proof.
  intros Hb [before [i [after [ov [-> [Hov [Hpos [Hthr [Hbef Haft]]]]]]]]].
  unfold assign_target, getitem_box. rewrite Hb. simpl.
  rewrite (best_person_winner before idx i after ppe_box thr ov 0 None); auto.
Qed.

Lemma assign_target_fallback (thr : Q) (m : mapping) (ppe_det : detection)
    (ppe_box : pyval) (c : Q * Q) :
  d_box ppe_det = Some ppe_box ->
  no_iou_candidate m ppe_box thr ->
  center ppe_box = Ok c ->
  assign_target thr m ppe_det = first_containing m c.
Proof.
  intros Hb Hnone Hc. unfold assign_target, getitem_box. rewrite Hb. simpl.
  rewrite (best_person_keeps m ppe_box thr 0 None Hnone). simpl.
  rewrite Hc. reflexivity.
Qed.

Lemma append_ppe_lookup (m : mapping) (idx : Z) (d : detection) (k : Z) :
  dict_get k (append_ppe idx d m)
  = (fun i => if Z.eqb k idx then mk_info (person i) (ppe i ++ [d]) else i)
      <$> dict_get k m.
Proof.
  induction m as [|[k0 i0] rest IH]; [reflexivity|].
  unfold append_ppe in *. simpl.
  destruct (Z.eqb_spec k0 idx) as [E1 | E1], (Z.eqb_spec k k0) as [E2 | E2];
    simpl; try exact IH.
  - subst. rewrite Z.eqb_refl. reflexivity.
  - subst k. destruct (Z.eqb_spec k0 idx); [contradiction | reflexivity].
Qed.

Lemma numeric_overlap (i : info) (b : pyval) (cb : coords) :
  numeric_box (person i) -> box_coords b = Ok cb -> exists o, overlap i b o.
Proof.
  intros [p [cp [Hp Hcp]]] Hb. exists (iou_coords cp cb), p.
  split; [exact Hp | apply iou_numeric; assumption].
Qed.

(** C3, as stated, fails: an equipment box may reach the threshold with
    person A, have its centre inside person B, and go to B, because B's
    overlap is the greater one. *)
Lemma iou_precedence_counterexample :
  let A := labelled "person" (box4 0 0 10 10) None None in
  let B := labelled "person" (box4 8 0 30 10) None None in
  let E := labelled "helmet" (box4 6 0 16 10) (Some 0.9) None in
  (exists ov, overlap (mk_info A []) (box4 6 0 16 10) ov /\ 0.15 <= ov) /\
  (exists c, center (box4 6 0 16 10) = Ok c /\ inside (mk_info B []) c) /\
  match_ppe_to_person [Dict A; Dict B; Dict E] 0.15
    = Ok [(0%Z, mk_info A []); (1%Z, mk_info B [E])] /\
  assign_target 0.15 [(0%Z, mk_info A []); (1%Z, mk_info B [])] E <> Ok (Some 0%Z).
Proof.
  cbv zeta. split; [|split; [|split]].
  - eexists. split.
    + eexists. split; reflexivity.
    + vm_compute. discriminate.
  - eexists. split; [reflexivity|].
    eexists. eexists. split; [reflexivity|]. split; [reflexivity|].
    vm_compute. repeat split; discriminate.
  - reflexivity.
  - vm_compute. discriminate.
Qed.

(** A threshold of zero shows why the overlap has to be positive: an
    equipment box that touches nobody has the greatest overlap, 0, with
    the first person, yet is left unassigned. *)
Lemma iou_rule_needs_positive_overlap :
  let A := labelled "person" (box4 0 0 10 10) None None in
  let E := labelled "helmet" (box4 20 0 30 10) (Some 0.9) None in
  (exists ov, overlap (mk_info A []) (box4 20 0 30 10) ov /\ 0 <= ov) /\
  match_ppe_to_person [Dict A; Dict E] 0 = Ok [(0%Z, mk_info A [])].
Proof.
  cbv zeta. split.
  - eexists. split.
    + eexists. split; reflexivity.
    + vm_compute. discriminate.
  - reflexivity.
Qed.

(** C3, amended: the IoU rule comes first and gives the equipment to the
    first person, in iteration order, whose overlap is the greatest,
    provided that overlap is positive and at least [iou_thresh]; only
    when nobody qualifies is the containment rule tried, which gives it
    to the first person whose box contains the centre, or to nobody.
    Hence an equipment box whose IoU winner is A goes to A even when its
    centre lies inside B. *)
Theorem association_order :
  forall (iou_thresh : Q) (m : mapping) (ppe_det : detection) (ppe_box : pyval),
    d_box ppe_det = Some ppe_box ->
    (forall idx,
        iou_winner m ppe_box iou_thresh idx ->
        assign_one iou_thresh m ppe_det = Ok (append_ppe idx ppe_det m)) /\
    (forall c,
        no_iou_candidate m ppe_box iou_thresh -> center ppe_box = Ok c ->
        (forall idx,
            containment_winner m c idx ->
            assign_one iou_thresh m ppe_det = Ok (append_ppe idx ppe_det m)) /\
        (nobody_contains m c -> assign_one iou_thresh m ppe_det = Ok m)) /\
    (forall a b i c,
        iou_winner m ppe_box iou_thresh a ->
        In (b, i) m -> center ppe_box = Ok c -> inside i c ->
        assign_one iou_thresh m ppe_det = Ok (append_ppe a ppe_det m)) /\
    (numeric_persons m -> numeric_box ppe_det ->
     (exists idx, iou_winner m ppe_box iou_thresh idx) \/
     no_iou_candidate m ppe_box iou_thresh).
Proof.
  intros thr m e b Hb. split; [|split; [|split]].
  - intros idx Hw. unfold assign_one.
    rewrite (assign_target_iou thr m e b idx Hb Hw). reflexivity.
  - intros c Hnone Hc. unfold assign_one.
    rewrite (assign_target_fallback thr m e b c Hb Hnone Hc). split.
    + intros idx [before [i [after [-> [Hin Hout]]]]].
      rewrite (first_containing_winner before idx i after c Hin Hout). reflexivity.
    + intros Hno. rewrite (first_containing_nobody m c Hno). reflexivity.
  - intros a _ _ _ Hw _ _ _. unfold assign_one.
    rewrite (assign_target_iou thr m e b a Hb Hw). reflexivity.
  - intros Hm [b' [cb [Hb' Hcb]]].
    assert (b' = b) by congruence. subst b'.
    assert (Hdef : List.Forall (fun x => exists o, overlap x.2 b o) m).
    { eapply List.Forall_impl; [|exact Hm].
      intros x Hx. exact (numeric_overlap x.2 b cb Hx Hcb). }
    destruct (iou_rule_decides m b thr 0 Hdef) as [Hnone | [bef [idx [i [aft [ov H]]]]]].
    + right. exact Hnone.
    + left. exists idx, bef, i, aft, ov. exact H.
Qed.

Lemma association_order_witness :
  let A := labelled "person" (box4 0 0 10 10) None None in
  let B := labelled "person" (box4 0 0 1000 1000) None None in
  let E := labelled "helmet" (box4 6 0 16 10) (Some 0.9) None in
  assign_one 0.15 [(0%Z, mk_info A []); (1%Z, mk_info B [])] E
  = Ok [(0%Z, mk_info A [E]); (1%Z, mk_info B [])].
Proof.
  cbv zeta.
  destruct (association_order 0.15
              [(0%Z, mk_info (labelled "person" (box4 0 0 10 10) None None) []);
               (1%Z, mk_info (labelled "person" (box4 0 0 1000 1000) None None) [])]
              (labelled "helmet" (box4 6 0 16 10) (Some 0.9) None)
              (box4 6 0 16 10) eq_refl) as [_ [_ [Hprec _]]].
  apply (Hprec 0%Z 1%Z
           (mk_info (labelled "person" (box4 0 0 1000 1000) None None) [])
           (center_coords (coords_of 6 0 16 10))).
  - exists [], (mk_info (labelled "person" (box4 0 0 10 10) None None) []),
      [(1%Z, mk_info (labelled "person" (box4 0 0 1000 1000) None None) [])],
      (iou_coords (coords_of 0 0 10 10) (coords_of 6 0 16 10)).
    split; [reflexivity|]. split; [eexists; split; reflexivity|].
    split; [vm_compute; reflexivity|]. split; [vm_compute; discriminate|].
    split; [constructor|].
    constructor; [|constructor].
    exists (iou_coords (coords_of 0 0 1000 1000) (coords_of 6 0 16 10)).
    split; [eexists; split; reflexivity | vm_compute; discriminate].
  - right. left. reflexivity.
  - reflexivity.
  - eexists. eexists. split; [reflexivity|]. split; [reflexivity|].
    vm_compute. repeat split; discriminate.
Defined.

(** ** Cleaning and totality *)

Lemma cleaned_In (detections : list pyobj) (d : detection) :
  In d (cleaned detections) <-> In (Dict d) detections /\ has_valid_box (Dict d) = true.
Proof.
  unfold cleaned. rewrite in_flat_map. split.
  - intros [[r | v] [Hin Hd]]; [|destruct Hd].
    destruct (has_valid_box (Dict r)) eqn:E; [|destruct Hd].
    destruct Hd as [<- | []]. auto.
  - intros [Hin Hv]. exists (Dict d). split; [exact Hin|]. rewrite Hv. left. reflexivity.
Qed.

(** Whatever is not a dictionary with a list or tuple of four items
    under [box] is dropped. *)
Lemma cleaned_drops_invalid (detections : list pyobj) (o : pyobj) :
  has_valid_box o = false ->
  cleaned (o :: detections) = cleaned detections.
Proof.
  intros H. unfold cleaned. simpl. destruct o as [r | v]; [rewrite H|]; reflexivity.
Qed.

Lemma center_numeric (b : pyval) (cb : coords) :
  box_coords b = Ok cb -> center b = Ok (center_coords cb).
Proof. intros H. unfold center. rewrite H. reflexivity. Qed.

Lemma best_person_ok (m : mapping) (b : pyval) (cb : coords) (thr : Q) :
  numeric_persons m -> box_coords b = Ok cb ->
  forall bi bx, exists r, best_person m b thr bi bx = Ok r.
Proof.
  intros Hm Hb. induction Hm as [|[k j] rest Hj Hrest IH]; intros bi bx.
  - exists bx. reflexivity.
  - destruct (numeric_overlap j b cb Hj Hb) as [o Ho].
    rewrite (best_person_step _ _ _ _ _ _ _ _ Ho).
    destruct (Qlt_bool bi o && Qle_bool thr o); apply IH.
Qed.

Lemma first_containing_ok (m : mapping) (c : Q * Q) :
  numeric_persons m -> exists r, first_containing m c = Ok r.
Proof.
  induction 1 as [|[k j] rest [b [box [Hb Hbox]]] Hrest IH].
  - exists None. reflexivity.
  - simpl in Hb. rewrite (first_containing_step _ _ _ _ _ _ Hb Hbox).
    destruct (point_in_bool box c); [eexists; reflexivity | exact IH].
Qed.

Lemma append_ppe_numeric (idx : Z) (d : detection) (m : mapping) :
  numeric_persons m -> numeric_persons (append_ppe idx d m).
Proof.
  unfold numeric_persons, append_ppe. intros H. apply List.Forall_map.
  eapply List.Forall_impl; [|exact H].
  intros [k i] Hi. destruct (Z.eqb k idx); exact Hi.
Qed.

Lemma assign_one_ok (thr : Q) (m : mapping) (d : detection) :
  numeric_persons m -> numeric_box d ->
  exists m', assign_one thr m d = Ok m' /\ numeric_persons m'.
Proof.
  intros Hm [b [cb [Hb Hcb]]].
  unfold assign_one, assign_target, getitem_box. rewrite Hb. simpl.
  destruct (best_person_ok m b cb thr Hm Hcb 0 None) as [[idx|] ->]; simpl.
  - eexists. split; [reflexivity | apply append_ppe_numeric, Hm].
  - rewrite (center_numeric b cb Hcb). simpl.
    destruct (first_containing_ok m (center_coords cb) Hm) as [[idx|] ->]; simpl.
    + eexists. split; [reflexivity | apply append_ppe_numeric, Hm].
    + eexists. split; [reflexivity | exact Hm].
Qed.

Lemma assign_all_ok (thr : Q) (others : list detection) :
  forall m,
    numeric_persons m -> List.Forall numeric_box others ->
    exists m', assign_all thr m others = Ok m'.
Proof.
  induction others as [|d rest IH]; intros m Hm Ho.
  - exists m. reflexivity.
  - inversion Ho as [|? ? Hd Hrest]; subst.
    destruct (assign_one_ok thr m d Hm Hd) as [m1 [E1 Hm1]].
    simpl. rewrite E1. simpl. apply IH; assumption.
Qed.

Lemma initial_mapping_numeric (persons : list detection) :
  forall idx, List.Forall numeric_box persons -> numeric_persons (initial_mapping idx persons).
Proof.
  induction persons as [|p rest IH]; intros idx H; simpl.
  - constructor.
  - inversion H; subst. constructor; [assumption | apply IH; assumption].
Qed.

(** When every box that survives the cleaning holds four numbers,
    [match_ppe_to_person] returns. *)
Lemma match_ppe_to_person_ok (detections : list pyobj) (thr : Q) :
  List.Forall numeric_box (cleaned detections) ->
  exists m, match_ppe_to_person detections thr = Ok m.
Proof.
  intros H. unfold match_ppe_to_person. rewrite partition_as_filter.
  apply assign_all_ok.
  - apply initial_mapping_numeric. rewrite List.Forall_forall in *.
    intros d Hd. apply filter_In in Hd. apply H, Hd.
  - rewrite List.Forall_forall in *.
    intros d Hd. apply filter_In in Hd. apply H, Hd.
Qed.

Lemma assign_one_shape (thr : Q) (m m' : mapping) (d : detection) :
  assign_one thr m d = Ok m' -> m' = m \/ exists idx, m' = append_ppe idx d m.
Proof.
  unfold assign_one. destruct (assign_target thr m d) as [[idx|]|]; simpl; intros H.
  - injection H as <-. right. exists idx. reflexivity.
  - injection H as <-. left. reflexivity.
  - discriminate H.
Qed.

Lemma append_ppe_drawn (kept : list detection) (idx : Z) (d : detection) (m : mapping) :
  In d kept -> drawn_from kept m -> drawn_from kept (append_ppe idx d m).
Proof.
  intros Hd H. unfold drawn_from, append_ppe. apply List.Forall_map.
  eapply List.Forall_impl; [|exact H].
  intros [k i] [Hp Hppe]. destruct (Z.eqb k idx); simpl; [|auto].
  split; [exact Hp|]. apply List.Forall_app. split; [exact Hppe|].
  constructor; [exact Hd | constructor].
Qed.

Lemma assign_all_drawn (kept : list detection) (thr : Q) (others : list detection) :
  forall m m',
    List.Forall (fun d => In d kept) others -> drawn_from kept m ->
    assign_all thr m others = Ok m' -> drawn_from kept m'.
Proof.
  induction others as [|d rest IH]; intros m m' Ho Hm H; simpl in H.
  - injection H as <-. exact Hm.
  - inversion Ho as [|? ? Hd Hrest]; subst.
    destruct (assign_one thr m d) as [m1|] eqn:E1; simpl in H; [|discriminate H].
    apply (IH m1 m' Hrest); [|exact H].
    destruct (assign_one_shape thr m m1 d E1) as [-> | [idx ->]];
      [exact Hm | apply append_ppe_drawn; assumption].
Qed.

Lemma initial_mapping_drawn (kept persons : list detection) :
  forall idx,
    List.Forall (fun d => In d kept) persons -> drawn_from kept (initial_mapping idx persons).
Proof.
  induction persons as [|p rest IH]; intros idx H; simpl.
  - constructor.
  - inversion H; subst. constructor; [simpl; auto | apply IH; assumption].
Qed.

(** Whatever [match_ppe_to_person] returns holds only detections of the
    input that pass [has_valid_box]: a non-dictionary, a dictionary
    without [box], and a [box] that is not a list or tuple of four items
    appear nowhere in the mapping. *)
Lemma mapping_holds_valid_boxes (detections : list pyobj) (thr : Q) (m : mapping) :
  match_ppe_to_person detections thr = Ok m ->
  forall idx i d,
    In (idx, i) m -> d = person i \/ In d (ppe i) ->
    In (Dict d) detections /\ has_valid_box (Dict d) = true.
Proof.
  unfold match_ppe_to_person. rewrite partition_as_filter. intros H idx i d Hin Hd.
  assert (Hdrawn : drawn_from (cleaned detections) m).
  { eapply assign_all_drawn; [| |exact H].
    - apply List.Forall_forall. intros x Hx. apply filter_In in Hx. apply Hx.
    - apply initial_mapping_drawn, List.Forall_forall.
      intros x Hx. apply filter_In in Hx. apply Hx. }
  unfold drawn_from in Hdrawn. rewrite List.Forall_forall in Hdrawn.
  destruct (Hdrawn (idx, i) Hin) as [Hp Hppe]. simpl in Hp, Hppe.
  apply cleaned_In. destruct Hd as [-> | Hd]; [exact Hp|].
  rewrite List.Forall_forall in Hppe. apply Hppe, Hd.
Qed.

(** C8 fails on the code: [has_valid_box] accepts a [box] of four items
    that are not numbers, although its documentation asks for four
    numbers; the detection is kept, and the overlap computation raises.
    A lone person with such a box is kept in the mapping. *)
Theorem non_numeric_box_is_kept :
  let p := labelled "person" (box4 0 0 10 10) None None in
  let bad_box := VList [VStr "2"; VStr "2"; VStr "8"; VStr "8"] in
  let bad := labelled "helmet" bad_box (Some 0.9) None in
  let bad_person := labelled "person" bad_box (Some 0.9) None in
  has_valid_box (Dict bad) = true /\
  match_ppe_to_person [Dict p; Dict bad] 0.15 = Raised /\
  match_ppe_to_person [Dict bad] 0.15 = Raised /\
  match_ppe_to_person [Dict bad_person] 0.15 = Ok [(0%Z, mk_info bad_person [])].
Proof. cbv zeta. repeat split. Qed.

(** ** The e-mail throttle *)

Module GateFacts.
Import App Gates.

Lemma truthy_iff (s : string) : truthy s = true <-> s <> EmptyString.
Proof. destruct s; simpl; split; congruence. Qed.

Lemma nonempty_iff {A : Type} (l : list A) :
  negb (Nat.eqb (length l) 0) = true <-> l <> [].
Proof. destruct l; simpl; split; congruence. Qed.

Lemma email_alerts_due (cfg : config) (e : env) (vs : list violation) (w : world) :
  alert_due cfg e vs w ->
  email_alerts cfg e vs w
  = let now := clock e (ticks w) in
    let m := mk_mail now (smtp_host cfg) (smtp_port cfg) (smtp_user cfg)
               (smtp_password cfg) "[SafetyEye] PPE Violations Detected"
               ("Total violations: " ++ str_of_int (Z.of_nat (length vs)))
               [recipient cfg] (use_ssl cfg) in
    let s := if delivers e (length (mails w))
             then set_last_email_time now (sess w) else sess w in
    mk_world s (S (ticks w)) (logs w) (mails w ++ [m]).
Proof.
  intros [Hen [Hcd [Hvs [Hh [Hu [Hp Hr]]]]]].
  unfold email_alerts. rewrite Hen.
  apply nonempty_iff in Hvs. apply truthy_iff in Hh, Hu, Hp, Hr.
  rewrite Hvs, Hh, Hu, Hp, Hr. simpl.
  apply Qle_bool_iff in Hcd. rewrite Hcd.
  destruct (delivers e (length (mails w))); reflexivity.
Qed.

Lemma email_alerts_not_due (cfg : config) (e : env) (vs : list violation) (w : world) :
  ~ alert_due cfg e vs w ->
  email_alerts cfg e vs w = w \/ email_alerts cfg e vs w = tick w.
Proof.
  intros Hnot. unfold email_alerts.
  destruct (enable_email cfg) eqn:Hen; [|left; reflexivity].
  destruct (negb (Nat.eqb (length vs) 0)) eqn:Hvs; [|left; reflexivity].
  destruct (truthy (smtp_host cfg)) eqn:Hh; [|left; reflexivity].
  destruct (truthy (smtp_user cfg)) eqn:Hu; [|left; reflexivity].
  destruct (truthy (smtp_password cfg)) eqn:Hp; [|left; reflexivity].
  destruct (truthy (recipient cfg)) eqn:Hr; [|left; reflexivity].
  simpl.
  destruct (Qle_bool EMAIL_COOLDOWN (clock e (ticks w) - last_email_time (sess w))) eqn:Hcd;
    [|right; reflexivity].
  exfalso. apply Hnot.
  apply nonempty_iff in Hvs. apply truthy_iff in Hh, Hu, Hp, Hr. apply Qle_bool_iff in Hcd.
  repeat split; assumption.
Qed.

End GateFacts.

(** C6, as stated, fails: with the alerts switched off nothing is sent,
    although the cooldown has elapsed, a violation is present and the
    configuration is complete. *)
Lemma alert_needs_enable_counterexample :
  let cfg := App.mk_config 0.35 8 false "smtp.gmail.com" 465 true
               "safety@example.com" "secret" "boss@example.com" in
  let e := App.mk_env (fun _ => 1000) (fun _ => true) in
  let v := mk_violation 0 (box4 0 0 10 10) true true no_signal in
  Gates.alert_due_as_stated cfg e [v] App.initial_world /\
  App.mails (App.email_alerts cfg e [v] App.initial_world) = [].
Proof.
  cbv zeta. split; [|reflexivity].
  split; [vm_compute; discriminate|]. split; [discriminate|].
  repeat split; discriminate.
Qed.

(** C6, amended: a send is attempted exactly when the alerts are
    switched on, the cooldown of 60 s has elapsed since
    [last_email_time], the frame has a violation and host, sender
    credentials and recipient are filled in; [last_email_time] becomes
    the reading of the clock when the send succeeds and is left alone
    when it fails, so that the next qualifying frame tries again. *)
Theorem alert_throttle :
  forall (cfg : App.config) (e : App.env) (violations : list violation) (w : App.world),
    let w' := App.email_alerts cfg e violations w in
    let now := App.clock e (App.ticks w) in
    (Gates.alert_due cfg e violations w <->
       exists m, App.mails w' = App.mails w ++ [m]) /\
    (~ Gates.alert_due cfg e violations w ->
       App.mails w' = App.mails w /\ App.sess w' = App.sess w) /\
    (Gates.alert_due cfg e violations w ->
       App.delivers e (length (App.mails w)) = true ->
       App.sess w' = App.set_last_email_time now (App.sess w)) /\
    (Gates.alert_due cfg e violations w ->
       App.delivers e (length (App.mails w)) = false ->
       App.sess w' = App.sess w /\
       (App.EMAIL_COOLDOWN <= App.clock e (App.ticks w') - App.last_email_time (App.sess w') ->
        Gates.alert_due cfg e violations w')) /\
    App.logs w' = App.logs w.
Proof.
  intros cfg e vs w. cbv zeta.
  assert (Hdec : Gates.alert_due cfg e vs w \/ ~ Gates.alert_due cfg e vs w).
  { unfold Gates.alert_due, Gates.alert_due_as_stated, Gates.email_configured.
    rewrite <- !GateFacts.truthy_iff, <- GateFacts.nonempty_iff, <- Qle_bool_iff.
    destruct (App.enable_email cfg), (negb (Nat.eqb (length vs) 0)),
      (truthy (App.smtp_host cfg)), (truthy (App.smtp_user cfg)),
      (truthy (App.smtp_password cfg)), (truthy (App.recipient cfg)),
      (Qle_bool App.EMAIL_COOLDOWN
         (App.clock e (App.ticks w) - App.last_email_time (App.sess w)));
      intuition congruence. }
  destruct Hdec as [Hdue | Hnot].
  - rewrite (GateFacts.email_alerts_due cfg e vs w Hdue). cbv zeta. simpl.
    split; [split; [intros _; eexists; reflexivity | intros _; exact Hdue]|].
    split; [intros Hn; contradiction|].
    split; [intros _ ->; reflexivity|].
    split; [|reflexivity].
    intros _ ->. split; [reflexivity|].
    intros Hcd. destruct Hdue as [Hen [_ Hrest]]. split; [exact Hen|].
    split; [exact Hcd | exact Hrest].
  - destruct (GateFacts.email_alerts_not_due cfg e vs w Hnot) as [-> | ->]; simpl.
    + split; [split; [intros H; contradiction|]|].
      * intros [m Hm]. exfalso. apply (f_equal (@length _)) in Hm.
        rewrite length_app in Hm. simpl in Hm. lia.
      * split; [auto|]. split; [intros H; contradiction|].
        split; [intros H; contradiction | reflexivity].
    + split; [split; [intros H; contradiction|]|].
      * intros [m Hm]. exfalso. apply (f_equal (@length _)) in Hm.
        rewrite length_app in Hm. simpl in Hm. lia.
      * split; [auto|]. split; [intros H; contradiction|].
        split; [intros H; contradiction | reflexivity].
Qed.

(** ** The frame-rate gate *)

Module FrameFacts.
Import App Gates.

Lemma predictions_numeric (frame : list prediction) :
  List.Forall numeric_box (cleaned (map detection_of frame)).
Proof.
  apply List.Forall_forall. intros d Hd. apply cleaned_In in Hd. destruct Hd as [Hin _].
  apply in_map_iff in Hin. destruct Hin as [p [Hp _]].
  unfold detection_of in Hp. destruct (p_box p) as [[[x1 y1] x2] y2].
  injection Hp as <-. exists (box4 x1 y1 x2 y2), (coords_of x1 y1 x2 y2).
  split; reflexivity.
Qed.

(** The detector's answer never makes the association raise. *)
Lemma match_predictions_ok (frame : list prediction) (thr : Q) :
  exists m, match_ppe_to_person (map detection_of frame) thr = Ok m.
Proof. apply match_ppe_to_person_ok, predictions_numeric. Qed.

Lemma log_violation_frame (e : env) (n : nat) (w : world) (v : violation) :
  last_frame_time (sess (log_violation e n w v)) = last_frame_time (sess w) /\
  last_email_time (sess (log_violation e n w v)) = last_email_time (sess w) /\
  mails (log_violation e n w v) = mails w.
Proof.
  unfold log_violation. simpl.
  destruct (Qlt_bool _ LOG_COOLDOWN); simpl; auto.
Qed.

Lemma log_violations_frame (e : env) (n : nat) (vs : list violation) :
  forall w,
    last_frame_time (sess (log_violations e n w vs)) = last_frame_time (sess w) /\
    last_email_time (sess (log_violations e n w vs)) = last_email_time (sess w) /\
    mails (log_violations e n w vs) = mails w.
Proof.
  unfold log_violations. induction vs as [|v rest IH]; intros w; simpl; [auto|].
  destruct (IH (log_violation e n w v)) as [H1 [H2 H3]].
  destruct (log_violation_frame e n w v) as [G1 [G2 G3]].
  rewrite H1, H2, H3. auto.
Qed.

Lemma email_alerts_frame (cfg : config) (e : env) (vs : list violation) (w : world) :
  last_frame_time (sess (email_alerts cfg e vs w)) = last_frame_time (sess w) /\
  last_log_time (sess (email_alerts cfg e vs w)) = last_log_time (sess w) /\
  logs (email_alerts cfg e vs w) = logs w.
Proof.
  unfold email_alerts.
  destruct (_ && _); simpl; [|auto].
  destruct (Qle_bool _ _); simpl; [|auto].
  destruct (delivers e _); simpl; auto.
Qed.

Lemma process_frame_skips (cfg : config) (e : env) (frame : list prediction) (w : world) :
  clock e (ticks w) - last_frame_time (sess w) < min_interval cfg ->
  process_frame cfg e frame w = (Skipped, tick w).
Proof.
  intros H. unfold process_frame. simpl.
  apply Qlt_bool_iff in H. rewrite H. reflexivity.
Qed.

Lemma process_frame_processes (cfg : config) (e : env) (frame : list prediction) (w : world) :
  min_interval cfg <= clock e (ticks w) - last_frame_time (sess w) ->
  exists m,
    match_ppe_to_person (map detection_of frame) 0.12 = Ok m /\
    let now := clock e (ticks w) in
    let violations := fst (evaluate_violations (AsDict m) (conf_slider cfg)) in
    let boxes := snd (evaluate_violations (AsDict m) (conf_slider cfg)) in
    let w2 := set_session (set_last_frame_time now (sess w)) (tick w) in
    let w3 := append_log (mk_log_row now (length m) (length violations) None EmptyString) w2 in
    process_frame cfg e frame w
    = (Processed violations boxes,
       email_alerts cfg e violations (log_violations e (length m) w3 violations)).
Proof.
  intros H. destruct (match_predictions_ok frame 0.12) as [m Hm].
  exists m. split; [exact Hm|]. cbv zeta.
  unfold process_frame. simpl.
  apply Qlt_bool_false_iff in H. rewrite H. rewrite Hm.
  destruct (evaluate_violations (AsDict m) (conf_slider cfg)) as [vs boxes].
  reflexivity.
Qed.

Lemma log_violation_logs (e : env) (n : nat) (w : world) (v : violation) :
  exists rows, logs (log_violation e n w v) = logs w ++ rows.
Proof.
  unfold log_violation. simpl.
  destruct (Qlt_bool _ LOG_COOLDOWN); simpl.
  - exists []. rewrite app_nil_r. reflexivity.
  - eexists. reflexivity.
Qed.

Lemma log_violations_logs (e : env) (n : nat) (vs : list violation) :
  forall w, exists rows, logs (log_violations e n w vs) = logs w ++ rows.
Proof.
  unfold log_violations. induction vs as [|v rest IH]; intros w; simpl.
  - exists []. rewrite app_nil_r. reflexivity.
  - destruct (IH (log_violation e n w v)) as [rows Hrows].
    destruct (log_violation_logs e n w v) as [rows0 Hrows0].
    exists (rows0 ++ rows). rewrite Hrows, Hrows0, app_assoc. reflexivity.
Qed.

(** What a processed frame leaves behind. *)
Lemma process_frame_effects (cfg : config) (e : env) (frame : list prediction) (w : world) :
  min_interval cfg <= clock e (ticks w) - last_frame_time (sess w) ->
  exists vs boxes n_people rows,
    fst (process_frame cfg e frame w) = Processed vs boxes /\
    last_frame_time (sess (snd (process_frame cfg e frame w))) = clock e (ticks w) /\
    logs (snd (process_frame cfg e frame w))
    = logs w ++ mk_log_row (clock e (ticks w)) n_people (length vs) None EmptyString :: rows.
Proof.
  intros H. destruct (process_frame_processes cfg e frame w H) as [m [Hm Hp]].
  cbv zeta in Hp. rewrite Hp. clear Hp. simpl fst. simpl snd.
  set (vs := fst (evaluate_violations (AsDict m) (conf_slider cfg))).
  set (boxes := snd (evaluate_violations (AsDict m) (conf_slider cfg))).
  set (w3 := append_log _ _).
  destruct (email_alerts_frame cfg e vs (log_violations e (length m) w3 vs)) as [E1 [_ E2]].
  destruct (log_violations_frame e (length m) vs w3) as [F1 _].
  destruct (log_violations_logs e (length m) vs w3) as [rows Hrows].
  exists vs, boxes, (length m), rows.
  split; [reflexivity|]. rewrite E1, E2, F1, Hrows. subst w3. simpl.
  rewrite <- app_assoc. split; reflexivity.
Qed.

End FrameFacts.

(** C7: a frame observed before [1 / max_fps] seconds have elapsed since
    the last processed one is skipped and changes nothing but the count
    of clock readings; any other frame is processed and its reading
    becomes the last processed time; at 8 frames per second, of two
    frames observed 0.05 s apart at most one is processed; exactly one
    is processed when the second is observed at least 0.125 s after the
    last frame processed before the pair, which is the case whenever the
    first of the two is processed (the second is then skipped), and none
    is processed otherwise. *)
Theorem rate_limiter :
  forall (cfg : App.config) (e : App.env) (frame : list App.prediction) (w : App.world),
    let now := App.clock e (App.ticks w) in
    let last := App.last_frame_time (App.sess w) in
    let o := fst (App.process_frame cfg e frame w) in
    let w' := snd (App.process_frame cfg e frame w) in
    (now - last < App.min_interval cfg ->
       o = App.Skipped /\ App.sess w' = App.sess w /\
       App.logs w' = App.logs w /\ App.mails w' = App.mails w) /\
    (App.min_interval cfg <= now - last ->
       App.is_processed o = true /\ App.last_frame_time (App.sess w') = now /\
       exists n_people n_violations rows,
         App.logs w' = App.logs w ++
                       App.mk_log_row now n_people n_violations None EmptyString :: rows) /\
    (forall next : list App.prediction,
        App.run_rate cfg = 8%Z ->
        App.clock e (App.ticks w') == now + 0.05 ->
        (Gates.processed_count (fst (App.run cfg e [frame; next] w)) <= 1)%nat /\
        (App.min_interval cfg <= now - last ->
         fst (App.process_frame cfg e next w') = App.Skipped /\
         Gates.processed_count (fst (App.run cfg e [frame; next] w)) = 1%nat) /\
        (Gates.processed_count (fst (App.run cfg e [frame; next] w)) = 1%nat <->
         0.125 <= now + 0.05 - last) /\
        (Gates.processed_count (fst (App.run cfg e [frame; next] w)) = 0%nat <->
         now + 0.05 - last < 0.125)).
Proof.
  intros cfg e frame w. cbv zeta. split; [|split].
  - intros H. rewrite (FrameFacts.process_frame_skips cfg e frame w H). simpl. auto.
  - intros H.
    destruct (FrameFacts.process_frame_effects cfg e frame w H)
      as [vs [boxes [n [rows [Ho [Hlast Hlogs]]]]]].
    rewrite Ho, Hlast, Hlogs. split; [reflexivity|]. split; [reflexivity|].
    exists n, (length vs), rows. reflexivity.
  - intros next Hrate Hclock.
    assert (Hint : App.min_interval cfg == 1 # 8).
    { unfold App.min_interval. rewrite Hrate. reflexivity. }
    assert (Hone : App.min_interval cfg
                   <= App.clock e (App.ticks w) - App.last_frame_time (App.sess w) ->
                   fst (App.process_frame cfg e next (snd (App.process_frame cfg e frame w)))
                   = App.Skipped /\
                   Gates.processed_count (fst (App.run cfg e [frame; next] w)) = 1%nat).
    { intros H.
      destruct (FrameFacts.process_frame_effects cfg e frame w H)
        as [vs [boxes [n [rows [Ho [Hlast _]]]]]].
      assert (Hskip : App.process_frame cfg e next (snd (App.process_frame cfg e frame w))
                      = (App.Skipped, Gates.tick (snd (App.process_frame cfg e frame w)))).
      { apply FrameFacts.process_frame_skips. rewrite Hlast, Hclock, Hint. lra. }
      split; [rewrite Hskip; reflexivity|].
      simpl App.run.
      destruct (App.process_frame cfg e frame w) as [o1 w1] eqn:E1.
      simpl in Ho, Hskip. subst o1. rewrite Hskip. reflexivity. }
    destruct (Qlt_le_dec (App.clock e (App.ticks w) - App.last_frame_time (App.sess w))
                (App.min_interval cfg)) as [H | H].
    + pose proof (FrameFacts.process_frame_skips cfg e frame w H) as E1.
      rewrite E1 in Hclock. simpl in Hclock.
      destruct (Qlt_le_dec
                  (App.clock e (App.ticks (Gates.tick w))
                   - App.last_frame_time (App.sess (Gates.tick w)))
                  (App.min_interval cfg)) as [H2 | H2].
      * assert (Hc : Gates.processed_count (fst (App.run cfg e [frame; next] w)) = 0%nat).
        { simpl App.run. rewrite E1.
          rewrite (FrameFacts.process_frame_skips cfg e next (Gates.tick w) H2).
          reflexivity. }
        simpl in H2. rewrite Hclock, Hint in H2. rewrite Hc.
        split; [lia|]. split; [intros H'; exfalso; rewrite Hint in H, H'; lra|].
        split; split; intros K; try discriminate K; try reflexivity; try lra.
      * destruct (FrameFacts.process_frame_effects cfg e next (Gates.tick w) H2)
          as [vs [boxes [n [rows [Ho _]]]]].
        assert (Hc : Gates.processed_count (fst (App.run cfg e [frame; next] w)) = 1%nat).
        { simpl App.run. rewrite E1.
          destruct (App.process_frame cfg e next (Gates.tick w)) as [o2 w2].
          simpl in Ho. subst o2. reflexivity. }
        simpl in H2. rewrite Hclock, Hint in H2. rewrite Hc.
        split; [lia|]. split; [intros H'; exfalso; rewrite Hint in H, H'; lra|].
        split; split; intros K; try discriminate K; try reflexivity; try lra.
    + destruct (Hone H) as [Hs Hc]. rewrite Hc. rewrite Hint in H.
      split; [lia|]. split; [intros _; split; [exact Hs | reflexivity]|].
      split; split; intros K; try discriminate K; try reflexivity; try lra.
Qed.

Lemma rate_limiter_witness :
  let cfg := App.mk_config 0.35 8 false EmptyString 465 true EmptyString EmptyString EmptyString in
  let e := App.mk_env (fun n => 1000 + inject_Z (Z.of_nat n) * 0.05) (fun _ => true) in
  Gates.processed_count (fst (App.run cfg e [[]; []] App.initial_world)) = 1%nat.
Proof.
  cbv zeta.
  destruct (rate_limiter
              (App.mk_config 0.35 8 false EmptyString 465 true EmptyString EmptyString EmptyString)
              (App.mk_env (fun n => 1000 + inject_Z (Z.of_nat n) * 0.05) (fun _ => true))
              [] App.initial_world) as [_ [_ H]].
  destruct (H [] eq_refl) as [_ [H1 _]].
  - vm_compute. reflexivity.
  - apply H1. vm_compute. discriminate.
Defined.

(** Two frames observed 0.05 s apart, both within the interval of a frame
    processed just before them: neither is processed. *)
Lemma two_close_frames_both_skipped_counterexample :
  let cfg := App.mk_config 0.35 8 false EmptyString 465 true EmptyString EmptyString EmptyString in
  let e := App.mk_env (fun n => match n with
                                | O => 1000
                                | S O => 1000.01
                                | _ => 1000.06
                                end) (fun _ => true) in
  let w := snd (App.process_frame cfg e [] App.initial_world) in
  App.last_frame_time (App.sess w) = 1000 /\
  App.clock e (App.ticks w) = 1000.01 /\
  App.clock e (S (App.ticks w)) - App.clock e (App.ticks w) == 0.05 /\
  map App.is_processed (fst (App.run cfg e [[]; []] w)) = [false; false] /\
  Gates.processed_count (fst (App.run cfg e [[]; []] w)) = 0%nat.
Proof.
  cbv zeta. repeat split; vm_compute; reflexivity.
Qed.

(** ** The per-person log cooldown *)

Module CooldownFacts.
Import App Gates.

Lemma log_due_dec (e : env) (w : world) (pid : Z) :
  log_due e w pid \/ ~ log_due e w pid.
Proof.
  unfold log_due.
  destruct (Qlt_le_dec (clock e (ticks w) - last_logged w pid) LOG_COOLDOWN) as [H | H].
  - right. intros H'. lra.
  - left. exact H.
Qed.

Lemma log_violation_due (e : env) (n : nat) (w : world) (v : violation) :
  log_due e w (person_idx v) ->
  log_violation e n w v
  = mk_world (set_last_log_time (person_idx v) (clock e (S (ticks w))) (sess w))
      (S (S (ticks w)))
      (logs w ++ [violation_row (clock e (ticks w)) n v])
      (mails w).
Proof.
  intros H. unfold log_violation. simpl.
  apply Qlt_bool_false_iff in H. unfold last_logged in H. rewrite H. reflexivity.
Qed.

Lemma log_violation_not_due (e : env) (n : nat) (w : world) (v : violation) :
  ~ log_due e w (person_idx v) -> log_violation e n w v = tick w.
Proof.
  intros H. unfold log_violation. simpl.
  destruct (Qlt_bool _ LOG_COOLDOWN) eqn:E; [reflexivity|].
  exfalso. apply H. apply Qlt_bool_false_iff in E. exact E.
Qed.

Lemma last_logged_set (w : world) (pid : Z) (t : Q) (k : nat)
    (rows : list log_row) (ms : list mail) (q : Z) :
  last_logged (mk_world (set_last_log_time pid t (sess w)) k rows ms) q
  = if decide (pid = q) then t else last_logged w q.
Proof.
  unfold last_logged. simpl. rewrite lookup_insert.
  destruct (decide (pid = q)); reflexivity.
Qed.

Lemma rows_spaced_snoc (rows : list log_row) (r : log_row) :
  rows_spaced rows ->
  (forall n r1 pid,
      rows !! n = Some r1 -> row_person r1 = Some pid -> row_person r = Some pid ->
      row_time r1 + LOG_COOLDOWN <= row_time r) ->
  rows_spaced (rows ++ [r]).
Proof.
  intros Hs Hnew n1 n2 r1 r2 pid Hlt H1 H2 P1 P2.
  apply lookup_app_Some in H2. destruct H2 as [H2 | [Hge H2]].
  - apply lookup_app_Some in H1. destruct H1 as [H1 | [Hge1 _]].
    + exact (Hs n1 n2 r1 r2 pid Hlt H1 H2 P1 P2).
    + apply lookup_lt_Some in H2. lia.
  - destruct (n2 - length rows)%nat eqn:En; [|destruct n; discriminate H2].
    simpl in H2. injection H2 as <-.
    apply lookup_app_Some in H1. destruct H1 as [H1 | [Hge1 _]]; [|lia].
    exact (Hnew n1 r1 pid H1 P1 P2).
Qed.

Lemma invariant_transfer (w w' : world) :
  logs w' = logs w -> last_log_time (sess w') = last_log_time (sess w) ->
  cooldown_invariant w -> cooldown_invariant w'.
Proof.
  intros Hl Ht [Hs Hb]. unfold cooldown_invariant, last_logged in *.
  rewrite Hl, Ht. auto.
Qed.

Lemma invariant_summary (w : world) (t : Q) (a b : nat) (txt : string) :
  cooldown_invariant w ->
  cooldown_invariant (append_log (mk_log_row t a b None txt) w).
Proof.
  intros [Hs Hb]. split; simpl.
  - apply rows_spaced_snoc; [exact Hs|]. intros n r1 pid _ _ H. discriminate H.
  - intros n r pid Hn Hp. apply lookup_app_Some in Hn. destruct Hn as [Hn | [_ Hn]].
    + exact (Hb n r pid Hn Hp).
    + destruct (n - length (logs w))%nat; [|destruct n0; discriminate Hn].
      simpl in Hn. injection Hn as <-. discriminate Hp.
Qed.

Lemma invariant_log_violation (e : env) (n : nat) (w : world) (v : violation) :
  monotone_clock e -> cooldown_invariant w ->
  cooldown_invariant (log_violation e n w v).
Proof.
  intros Hmono Hinv.
  destruct (log_due_dec e w (person_idx v)) as [Hdue | Hnot].
  - rewrite (log_violation_due e n w v Hdue). destruct Hinv as [Hs Hb].
    pose proof (Hmono (ticks w)) as Hm. unfold log_due, LOG_COOLDOWN in *.
    split; simpl logs.
    + apply rows_spaced_snoc; [exact Hs|].
      intros k r1 pid Hk P1 P2. simpl in P2. injection P2 as <-.
      pose proof (Hb k r1 _ Hk P1) as Hle. simpl. unfold LOG_COOLDOWN. lra.
    + intros k r pid Hk Hp.
      rewrite last_logged_set.
      apply lookup_app_Some in Hk. destruct Hk as [Hk | [_ Hk]].
      * pose proof (Hb k r pid Hk Hp) as Hle.
        destruct (decide (person_idx v = pid)) as [<- | _]; [lra | exact Hle].
      * destruct (k - length (logs w))%nat; [|destruct n0; discriminate Hk].
        simpl in Hk. injection Hk as <-. simpl in Hp. injection Hp as <-.
        destruct (decide (person_idx v = person_idx v)); [simpl; lra | contradiction].
  - rewrite (log_violation_not_due e n w v Hnot).
    apply (invariant_transfer w); [reflexivity | reflexivity | exact Hinv].
Qed.

Lemma invariant_log_violations (e : env) (n : nat) (vs : list violation) :
  monotone_clock e ->
  forall w, cooldown_invariant w -> cooldown_invariant (log_violations e n w vs).
Proof.
  intros Hmono. unfold log_violations.
  induction vs as [|v rest IH]; intros w Hinv; simpl; [exact Hinv|].
  apply IH, invariant_log_violation; assumption.
Qed.

Lemma invariant_process_frame (cfg : config) (e : env) (frame : list prediction) (w : world) :
  monotone_clock e -> cooldown_invariant w ->
  cooldown_invariant (snd (process_frame cfg e frame w)).
Proof.
  intros Hmono Hinv.
  destruct (Qlt_le_dec (clock e (ticks w) - last_frame_time (sess w)) (min_interval cfg))
    as [H | H].
  - rewrite (FrameFacts.process_frame_skips cfg e frame w H). simpl.
    apply (invariant_transfer w); [reflexivity | reflexivity | exact Hinv].
  - destruct (FrameFacts.process_frame_processes cfg e frame w H) as [m [_ Hp]].
    cbv zeta in Hp. rewrite Hp. simpl snd.
    set (vs := fst (evaluate_violations (AsDict m) (conf_slider cfg))).
    set (w3 := append_log _ _).
    destruct (FrameFacts.email_alerts_frame cfg e vs (log_violations e (length m) w3 vs))
      as [_ [E1 E2]].
    apply (invariant_transfer (log_violations e (length m) w3 vs)); [exact E2 | exact E1 |].
    apply invariant_log_violations; [exact Hmono|].
    subst w3. apply invariant_summary.
    apply (invariant_transfer w); [reflexivity | reflexivity | exact Hinv].
Qed.

Lemma invariant_run (cfg : config) (e : env) (frames : list (list prediction)) :
  monotone_clock e ->
  forall w, cooldown_invariant w -> cooldown_invariant (snd (run cfg e frames w)).
Proof.
  intros Hmono. induction frames as [|frame rest IH]; intros w Hinv; simpl; [exact Hinv|].
  pose proof (invariant_process_frame cfg e frame w Hmono Hinv) as H1.
  destruct (process_frame cfg e frame w) as [o w1]. simpl in H1.
  specialize (IH w1 H1).
  destruct o; try exact H1;
    destruct (run cfg e rest w1) as [os w2]; exact IH.
Qed.

Lemma invariant_no_rows (w : world) : logs w = [] -> cooldown_invariant w.
Proof.
  intros H. split; rewrite H.
  - intros n1 n2 r1 r2 pid _ H1. discriminate H1.
  - intros n r pid H1. discriminate H1.
Qed.

End CooldownFacts.

(** C5, as stated, fails: an absent timestamp is read as 0, so a person
    seen for the first time is let through only when the clock reads at
    least 5; at a reading of 2 no row is written. *)
Lemma first_sighting_counterexample :
  let e := App.mk_env (fun _ => 2) (fun _ => true) in
  let v := mk_violation 7 (box4 0 0 10 10) true true no_signal in
  Gates.log_due_as_stated e App.initial_world 7 /\
  App.logs (App.log_violation e 1 App.initial_world v) = [] /\
  App.last_log_time (App.sess (App.log_violation e 1 App.initial_world v)) !! 7%Z = None.
Proof.
  cbv zeta. split; [left; reflexivity | split; reflexivity].
Qed.

(** C5, amended: a violation is logged, and the person's timestamp
    overwritten with a fresh reading of the clock, exactly when
    [now - last >= 5], where [last] is the person's stored timestamp and
    0 when there is none; whenever the clock reads at least 5, as
    wall-clock time does, this is the rule: no prior timestamp, or the
    cooldown has elapsed.  Hence readings [t], [t + 2], [t + 6] for a
    new person, with [t >= 5] and the timestamp stored within a second
    of [t], log, suppress and log; and when the clock never runs
    backwards, two logged rows of one person are at least 5 s apart. *)
Theorem log_cooldown :
  (forall (e : App.env) (n : nat) (w : App.world) (v : violation),
      let pid := person_idx v in
      let w' := App.log_violation e n w v in
      (Gates.log_due e w pid <->
         App.logs w' = App.logs w ++ [Gates.violation_row (App.clock e (App.ticks w)) n v]) /\
      (Gates.log_due e w pid ->
         App.last_log_time (App.sess w')
         = <[pid := App.clock e (S (App.ticks w))]> (App.last_log_time (App.sess w))) /\
      (~ Gates.log_due e w pid ->
         App.logs w' = App.logs w /\ App.sess w' = App.sess w)) /\
  (forall (e : App.env) (w : App.world) (pid : Z),
      App.LOG_COOLDOWN <= App.clock e (App.ticks w) ->
      (Gates.log_due e w pid <-> Gates.log_due_as_stated e w pid)) /\
  (forall (e : App.env) (n : nat) (w : App.world) (v : violation) (t : Q),
      App.last_log_time (App.sess w) !! person_idx v = None ->
      App.LOG_COOLDOWN <= t ->
      App.clock e (App.ticks w) == t ->
      t <= App.clock e (S (App.ticks w)) ->
      App.clock e (S (App.ticks w)) <= t + 1 ->
      App.clock e (S (S (App.ticks w))) == t + 2 ->
      App.clock e (S (S (S (App.ticks w)))) == t + 6 ->
      let w1 := App.log_violation e n w v in
      let w2 := App.log_violation e n w1 v in
      let w3 := App.log_violation e n w2 v in
      App.logs w1 = App.logs w ++ [Gates.violation_row (App.clock e (App.ticks w)) n v] /\
      App.logs w2 = App.logs w1 /\
      App.logs w3
      = App.logs w2 ++ [Gates.violation_row (App.clock e (S (S (S (App.ticks w))))) n v]) /\
  (forall (cfg : App.config) (e : App.env) (frames : list (list App.prediction))
          (w : App.world),
      Gates.monotone_clock e -> App.logs w = [] ->
      Gates.rows_spaced (App.logs (snd (App.run cfg e frames w)))).
Proof.
  split; [|split; [|split]].
  - intros e n w v. cbv zeta.
    destruct (CooldownFacts.log_due_dec e w (person_idx v)) as [Hdue | Hnot].
    + rewrite (CooldownFacts.log_violation_due e n w v Hdue). simpl.
      split; [tauto|]. split; [reflexivity | intros H; contradiction].
    + rewrite (CooldownFacts.log_violation_not_due e n w v Hnot). simpl.
      split; [|split; [intros H; contradiction | auto]].
      split; [intros H; contradiction|].
      intros H. exfalso. apply (f_equal (@length _)) in H.
      rewrite length_app in H. simpl in H. lia.
  - intros e w pid Hnow.
    unfold Gates.log_due, Gates.log_due_as_stated, Gates.last_logged, App.LOG_COOLDOWN in *.
    destruct (App.last_log_time (App.sess w) !! pid) as [last|]; simpl.
    + split.
      * intros H. right. exists last. auto.
      * intros [H | [l [E H]]]; [discriminate H|]. injection E as <-. exact H.
    + split; [auto|]. intros _. lra.
  - intros e n w v t Hnone Ht E0 Hlo Hhi E2 E3. cbv zeta.
    unfold App.LOG_COOLDOWN in Ht.
    assert (D1 : Gates.log_due e w (person_idx v)).
    { unfold Gates.log_due, Gates.last_logged, App.LOG_COOLDOWN. rewrite Hnone. simpl. lra. }
    rewrite (CooldownFacts.log_violation_due e n w v D1).
    set (w1 := App.mk_world _ _ _ _).
    assert (L1 : Gates.last_logged w1 (person_idx v) = App.clock e (S (App.ticks w))).
    { subst w1. rewrite CooldownFacts.last_logged_set.
      destruct (decide (person_idx v = person_idx v)); [reflexivity | contradiction]. }
    assert (D2 : ~ Gates.log_due e w1 (person_idx v)).
    { unfold Gates.log_due, App.LOG_COOLDOWN. rewrite L1. subst w1. simpl. lra. }
    rewrite (CooldownFacts.log_violation_not_due e n w1 v D2).
    assert (D3 : Gates.log_due e (Gates.tick w1) (person_idx v)).
    { unfold Gates.log_due, App.LOG_COOLDOWN.
      change (Gates.last_logged (Gates.tick w1) (person_idx v))
        with (Gates.last_logged w1 (person_idx v)).
      rewrite L1. subst w1. simpl. lra. }
    rewrite (CooldownFacts.log_violation_due e n (Gates.tick w1) v D3).
    subst w1. simpl. auto.
  - intros cfg e frames w Hmono Hlogs.
    apply (CooldownFacts.invariant_run cfg e frames Hmono w).
    apply CooldownFacts.invariant_no_rows, Hlogs.
Qed.

Lemma log_cooldown_witness :
  let e := App.mk_env (fun n => match n with
                                | O => 100
                                | S O => 100.5
                                | S (S O) => 102
                                | _ => 106
                                end) (fun _ => true) in
  let v := mk_violation 2 (box4 0 0 10 10) true false no_signal in
  App.logs
    (App.log_violation e 1
       (App.log_violation e 1 (App.log_violation e 1 App.initial_world v) v) v)
  = [Gates.violation_row 100 1 v; Gates.violation_row 106 1 v].
Proof.
  cbv zeta.
  destruct log_cooldown as [_ [_ [Hseq _]]].
  destruct (Hseq
              (App.mk_env (fun n => match n with
                                    | O => 100
                                    | S O => 100.5
                                    | S (S O) => 102
                                    | _ => 106
                                    end) (fun _ => true))
              1%nat App.initial_world
              (mk_violation 2 (box4 0 0 10 10) true false no_signal) 100)
    as [H1 [H2 H3]].
  - reflexivity.
  - vm_compute. discriminate.
  - reflexivity.
  - vm_compute. discriminate.
  - vm_compute. discriminate.
  - reflexivity.
  - reflexivity.
  - cbv zeta in H3. rewrite H3, H2, H1. reflexivity.
Defined.

Lemma alert_throttle_witness :
  let cfg := App.mk_config 0.35 8 true "smtp.gmail.com" 465 true
               "safety@example.com" "secret" "boss@example.com" in
  let e := App.mk_env (fun _ => 1000) (fun _ => false) in
  let v := mk_violation 0 (box4 0 0 10 10) true true no_signal in
  App.sess (App.email_alerts cfg e [v] App.initial_world) = App.initial_session.
Proof.
  cbv zeta.
  destruct (alert_throttle
              (App.mk_config 0.35 8 true "smtp.gmail.com" 465 true
                 "safety@example.com" "secret" "boss@example.com")
              (App.mk_env (fun _ => 1000) (fun _ => false))
              [mk_violation 0 (box4 0 0 10 10) true true no_signal]
              App.initial_world) as [_ [_ [_ [Hfail _]]]].
  apply Hfail.
  - split; [reflexivity|]. split; [vm_compute; discriminate|].
    split; [discriminate|]. repeat split; discriminate.
  - reflexivity.
Defined.

(** Two items with index 4 and one without index: the two share an
    entry, which keeps the box of the later one. *)
Lemma legacy_list_collapse_example :
  let a := mk_legacy_item (Some 4%Z) (Some (box4 0 0 10 10)) in
  let b := mk_legacy_item None (Some (box4 5 5 9 9)) in
  let c := mk_legacy_item (Some 4%Z) (Some (box4 1 1 20 20)) in
  fst (evaluate_violations (AsList [a; b; c]) 0.35)
  = [mk_violation 4 (box4 1 1 20 20) true true no_signal;
     mk_violation 0 (box4 5 5 9 9) true true no_signal].
Proof. reflexivity. Qed.

(** * Further properties of the code *)

(** ** [iou]: range, symmetry, positivity *)

Lemma inter_area_bounds (boxA boxB : coords) :
  0 <= inter_area boxA boxB /\
  inter_area boxA boxB <= union_area boxA boxB.
Proof.
  unfold union_area, inter_area.
  destruct boxA as [[[a0 a1] a2] a3], boxB as [[[b0 b1] b2] b3].
  pose proof (Q.le_min_l a2 b2). pose proof (Q.le_max_l a0 b0).
  pose proof (Q.le_min_l a3 b3). pose proof (Q.le_max_l a1 b1).
  pose proof (Q.le_min_r a2 b2). pose proof (Q.le_max_r a0 b0).
  pose proof (Q.le_min_r a3 b3). pose proof (Q.le_max_r a1 b1).
  set (xB := Qmin a2 b2) in *. set (xA := Qmax a0 b0) in *.
  set (yB := Qmin a3 b3) in *. set (yA := Qmax a1 b1) in *.
  clearbody xA xB yA yB.
  assert (HWa : Qmax 0 (xB - xA) <= Qmax 1 (a2 - a0)).
  { apply Q.max_lub.
    - eapply Qle_trans; [|apply Q.le_max_l]. lra.
    - eapply Qle_trans; [|apply Q.le_max_r]. lra. }
  assert (HHa : Qmax 0 (yB - yA) <= Qmax 1 (a3 - a1)).
  { apply Q.max_lub.
    - eapply Qle_trans; [|apply Q.le_max_l]. lra.
    - eapply Qle_trans; [|apply Q.le_max_r]. lra. }
  assert (HWb : Qmax 0 (xB - xA) <= Qmax 1 (b2 - b0)).
  { apply Q.max_lub.
    - eapply Qle_trans; [|apply Q.le_max_l]. lra.
    - eapply Qle_trans; [|apply Q.le_max_r]. lra. }
  assert (HHb : Qmax 0 (yB - yA) <= Qmax 1 (b3 - b1)).
  { apply Q.max_lub.
    - eapply Qle_trans; [|apply Q.le_max_l]. lra.
    - eapply Qle_trans; [|apply Q.le_max_r]. lra. }
  pose proof (Q.le_max_l 0 (xB - xA)). pose proof (Q.le_max_l 0 (yB - yA)).
  pose proof (Q.le_max_l 1 (a2 - a0)). pose proof (Q.le_max_l 1 (a3 - a1)).
  pose proof (Q.le_max_l 1 (b2 - b0)). pose proof (Q.le_max_l 1 (b3 - b1)).
  set (iw := Qmax 0 (xB - xA)) in *. set (ih := Qmax 0 (yB - yA)) in *.
  set (wa := Qmax 1 (a2 - a0)) in *. set (ha := Qmax 1 (a3 - a1)) in *.
  set (wb := Qmax 1 (b2 - b0)) in *. set (hb := Qmax 1 (b3 - b1)) in *.
  clearbody iw ih wa ha wb hb. split; nra.
Qed.

Lemma iou_returns_coords (boxA boxB : pyval) (q : Q) :
  iou boxA boxB = Ok q ->
  exists a b, first_four boxA = Ok a /\ first_four boxB = Ok b /\ q = iou_coords a b.
Proof.
  unfold iou. destruct (first_four boxA) as [a|]; simpl; [|discriminate].
  destruct (first_four boxB) as [b|]; simpl; [|discriminate].
  intros H. injection H as <-. exists a, b. auto.
Qed.

(** X1: whatever [iou] returns lies between 0.0 and 1.0. *)
Theorem iou_between_0_and_1 :
  forall (boxA boxB : pyval) (q : Q),
    iou boxA boxB = Ok q -> 0 <= q /\ q <= 1.
Proof.
  intros boxA boxB q H.
  destruct (iou_returns_coords boxA boxB q H) as [a [b [_ [_ ->]]]].
  rewrite iou_coords_ratio.
  pose proof (union_area_ge_1 a b) as HU.
  destruct (inter_area_bounds a b) as [H0 H1].
  split.
  - apply Qle_shift_div_l; lra.
  - apply Qle_shift_div_r; lra.
Qed.

Lemma iou_between_0_and_1_witness :
  0 <= iou_coords (coords_of 10 10 110 210) (coords_of 10 10 60 60) /\
  iou_coords (coords_of 10 10 110 210) (coords_of 10 10 60 60) <= 1.
Proof.
  apply (iou_between_0_and_1 (box4 10 10 110 210) (box4 10 10 60 60)). reflexivity.
Defined.

Lemma inter_area_comm (a b : coords) : inter_area a b == inter_area b a.
Proof.
  unfold inter_area. destruct a as [[[a0 a1] a2] a3], b as [[[b0 b1] b2] b3].
  rewrite (Q.max_comm a0 b0), (Q.max_comm a1 b1), (Q.min_comm a2 b2), (Q.min_comm a3 b3).
  reflexivity.
Qed.

Lemma iou_coords_comm (a b : coords) : iou_coords a b == iou_coords b a.
Proof.
  rewrite !iou_coords_ratio.
  assert (HU : union_area a b == union_area b a).
  { pose proof (inter_area_comm a b) as HI.
    destruct a as [[[a0 a1] a2] a3], b as [[[b0 b1] b2] b3].
    unfold union_area. rewrite HI. ring. }
  rewrite HU, (inter_area_comm a b). reflexivity.
Qed.

(** X2: [iou] is symmetric: swapping the two boxes changes neither
    whether it raises nor the value. *)
Theorem iou_symmetric :
  forall boxA boxB : pyval,
    match iou boxA boxB, iou boxB boxA with
    | Ok q, Ok q' => q == q'
    | Raised, Raised => True
    | _, _ => False
    end.
Proof.
  intros boxA boxB. unfold iou.
  destruct (first_four boxA) as [a|], (first_four boxB) as [b|]; simpl; auto.
  apply iou_coords_comm.
Qed.

(** X3: for two boxes of positive width and height, [iou] is positive
    exactly when the boxes overlap, touching edges not counted. *)
Theorem iou_positive_iff_overlap :
  forall (boxA boxB : pyval) (a b : coords),
    box_coords boxA = Ok a -> box_coords boxB = Ok b ->
    well_formed a -> well_formed b ->
    exists q, iou boxA boxB = Ok q /\ (0 < q <-> ~ non_overlapping a b).
Proof.
  intros boxA boxB a b Ha Hb Wa Wb.
  exists (iou_coords a b). split; [apply iou_numeric; assumption|].
  rewrite iou_coords_ratio.
  pose proof (union_area_ge_1 a b) as HU.
  destruct (inter_area_bounds a b) as [H0 _].
  assert (Hpos : 0 < inter_area a b / union_area a b <-> 0 < inter_area a b).
  { split; intros H.
    - destruct (Qlt_le_dec 0 (inter_area a b)) as [?|Hle]; [assumption|].
      assert (E : inter_area a b == 0) by lra.
      rewrite E in H. unfold Qdiv in H. rewrite Qmult_0_l in H. lra.
    - apply Qlt_shift_div_l; lra. }
  rewrite Hpos. clear Hpos HU H0.
  unfold inter_area, non_overlapping, well_formed in *.
  destruct a as [[[a0 a1] a2] a3], b as [[[b0 b1] b2] b3].
  destruct Wa as [Wa1 Wa2], Wb as [Wb1 Wb2].
  assert (Hx : 0 < Qmin a2 b2 - Qmax a0 b0 <-> b0 < a2 /\ a0 < b2).
  { split.
    - intros H. assert (H' : Qmax a0 b0 < Qmin a2 b2) by lra.
      apply Q.max_lub_lt_iff in H'. destruct H' as [H1 H2].
      apply Q.min_glb_lt_iff in H1, H2. tauto.
    - intros [H1 H2]. assert (H' : Qmax a0 b0 < Qmin a2 b2).
      { apply Q.max_lub_lt_iff. split; apply Q.min_glb_lt_iff; auto. }
      lra. }
  assert (Hy : 0 < Qmin a3 b3 - Qmax a1 b1 <-> b1 < a3 /\ a1 < b3).
  { split.
    - intros H. assert (H' : Qmax a1 b1 < Qmin a3 b3) by lra.
      apply Q.max_lub_lt_iff in H'. destruct H' as [H1 H2].
      apply Q.min_glb_lt_iff in H1, H2. tauto.
    - intros [H1 H2]. assert (H' : Qmax a1 b1 < Qmin a3 b3).
      { apply Q.max_lub_lt_iff. split; apply Q.min_glb_lt_iff; auto. }
      lra. }
  set (dx := Qmin a2 b2 - Qmax a0 b0) in *. set (dy := Qmin a3 b3 - Qmax a1 b1) in *.
  clearbody dx dy.
  destruct (Q.max_spec 0 dx) as [[Hdx Ex] | [Hdx Ex]],
           (Q.max_spec 0 dy) as [[Hdy Ey] | [Hdy Ey]]; rewrite Ex, Ey.
  - split.
    + intros _ [H | [H | [H | H]]]; lra.
    + intros _. nra.
  - split; [intros H; lra|]. intros Hn. exfalso.
    destruct (Qlt_le_dec 0 dy) as [H|H]; [lra|]. apply Hn.
    destruct (Qlt_le_dec b1 a3); [|tauto]. destruct (Qlt_le_dec a1 b3); [|tauto].
    exfalso. assert (0 < dy) by (apply Hy; auto). lra.
  - split; [intros H; lra|]. intros Hn. exfalso. apply Hn.
    destruct (Qlt_le_dec b0 a2); [|tauto]. destruct (Qlt_le_dec a0 b2); [|tauto].
    exfalso. assert (0 < dx) by (apply Hx; auto). lra.
  - split; [intros H; lra|]. intros Hn. exfalso. apply Hn.
    destruct (Qlt_le_dec b0 a2); [|tauto]. destruct (Qlt_le_dec a0 b2); [|tauto].
    exfalso. assert (0 < dx) by (apply Hx; auto). lra.
Qed.

Lemma iou_positive_iff_overlap_witness :
  exists q, iou (box4 0 0 10 10) (box4 10 0 20 10) = Ok q /\
            (0 < q <-> ~ non_overlapping (coords_of 0 0 10 10) (coords_of 10 0 20 10)).
Proof.
  apply (iou_positive_iff_overlap (box4 0 0 10 10) (box4 10 0 20 10)
           (coords_of 0 0 10 10) (coords_of 10 0 20 10)).
  - reflexivity.
  - reflexivity.
  - split; reflexivity.
  - split; reflexivity.
Defined.

(** ** [safe_label] *)

Lemma lower_ascii_idempotent (c : ascii) : lower_ascii (lower_ascii c) = lower_ascii c.
Proof. destruct c as [[] [] [] [] [] [] [] []]; reflexivity. Qed.

Lemma lower_idempotent (s : string) : lower (lower s) = lower s.
Proof.
  induction s as [|c r IH]; simpl; [reflexivity|].
  rewrite lower_ascii_idempotent, IH. reflexivity.
Qed.

Lemma lower_digits (d : Decimal.uint) :
  lower (NilEmpty.string_of_uint d) = NilEmpty.string_of_uint d.
Proof. induction d; simpl; try rewrite IHd; reflexivity. Qed.

Lemma lower_str_of_int (z : Z) : lower (str_of_int z) = str_of_int z.
Proof.
  unfold str_of_int, NilZero.string_of_int, NilZero.string_of_uint.
  destruct (Z.to_int z) as [d | d]; destruct d; simpl; rewrite ?lower_digits; reflexivity.
Qed.

Lemma str_of_int_parses (z : Z) :
  NilZero.int_of_string (str_of_int z) = Some (Z.to_int z).
Proof.
  unfold str_of_int. apply NilZero.isi; destruct z; simpl; try discriminate;
    intros H; injection H as H; exact (DecimalPos.Unsigned.to_uint_nonnil _ H).
Qed.

Lemma str_of_int_inj (a b : Z) : str_of_int a = str_of_int b -> a = b.
Proof.
  intros H. apply DecimalZ.to_int_inj.
  pose proof (str_of_int_parses a) as Ha. rewrite H, str_of_int_parses in Ha.
  injection Ha as Ha. symmetry. exact Ha.
Qed.

(** X4: the label [safe_label] returns never holds an upper-case ASCII
    letter, and two dictionaries whose [label] differs only in case get
    the same label. *)
Theorem safe_label_is_lower_case :
  (forall det : pyobj, lower (safe_label det) = safe_label det) /\
  (forall (d d' : detection) (s s' : string),
      d_label d = Some s -> d_label d' = Some s' -> lower s = lower s' ->
      safe_label (Dict d) = safe_label (Dict d')).
Proof.
  split.
  - intros [d | v]; [|reflexivity]. unfold safe_label.
    destruct (d_label d) as [s|]; [apply lower_idempotent|].
    destruct (first_present _) as [z|]; [apply lower_str_of_int|].
    destruct (first_truthy _) as [s|]; [apply lower_idempotent | reflexivity].
  - intros d d' s s' H H' E. unfold safe_label. rewrite H, H'. exact E.
Qed.

(** X5: a dictionary without [label] whose first class index, among
    [cls], [class], [class_id] and [category], is [z] counts as a person
    exactly when [z] is 0. *)
Theorem class_zero_is_person :
  forall (d : detection) (z : Z),
    d_label d = None ->
    first_present [d_cls d; d_class d; d_class_id d; d_category d] = Some z ->
    (is_person d = true <-> z = 0%Z).
Proof.
  intros d z Hl Hc. unfold is_person, safe_label. rewrite Hl, Hc.
  unfold is_person_label. split.
  - rewrite !orb_true_iff, !String.eqb_eq. intros [[H | H] | H].
    + pose proof (str_of_int_parses z) as P. rewrite H in P. discriminate P.
    + pose proof (str_of_int_parses z) as P. rewrite H in P. discriminate P.
    + apply str_of_int_inj. exact H.
  - intros ->. reflexivity.
Qed.

Lemma class_zero_is_person_witness :
  is_person (mk_detection None None (Some 0%Z) None None None None None
               (Some (box4 0 0 5 5)) None) = true.
Proof.
  apply (class_zero_is_person
           (mk_detection None None (Some 0%Z) None None None None None
              (Some (box4 0 0 5 5)) None) 0%Z); reflexivity.
Defined.

(** ** [match_ppe_to_person]: what the mapping looks like *)

Lemma match_unfold (detections : list pyobj) (thr : Q) :
  match_ppe_to_person detections thr
  = assign_all thr (initial_mapping 0 (persons_of detections)) (equipment_of detections).
Proof. unfold match_ppe_to_person. rewrite partition_as_filter. reflexivity. Qed.

Lemma cleaned_app (l1 l2 : list pyobj) : cleaned (l1 ++ l2) = cleaned l1 ++ cleaned l2.
Proof. unfold cleaned. apply flat_map_app. Qed.

(** X6: an entry that fails [has_valid_box] has no influence: wherever
    it stands in the list, the result is the one without it. *)
Theorem invalid_detection_is_ignored :
  forall (before after : list pyobj) (o : pyobj) (iou_thresh : Q),
    has_valid_box o = false ->
    match_ppe_to_person (before ++ o :: after) iou_thresh
    = match_ppe_to_person (before ++ after) iou_thresh.
Proof.
  intros l1 l2 o thr H. rewrite !match_unfold. unfold persons_of, equipment_of.
  rewrite !cleaned_app, (cleaned_drops_invalid l2 o H). reflexivity.
Qed.

Lemma invalid_detection_is_ignored_witness :
  match_ppe_to_person
    ([Dict (labelled "person" (box4 0 0 10 10) None None)]
       ++ NotDict VNone :: [Dict (labelled "helmet" (box4 2 2 8 8) (Some 0.9) None)]) 0.15
  = match_ppe_to_person
      ([Dict (labelled "person" (box4 0 0 10 10) None None)]
         ++ [Dict (labelled "helmet" (box4 2 2 8 8) (Some 0.9) None)]) 0.15.
Proof. apply invalid_detection_is_ignored. reflexivity. Defined.

Lemma append_ppe_frame (idx : Z) (d : detection) (m : mapping) :
  map fst (append_ppe idx d m) = map fst m /\
  map (fun e => person e.2) (append_ppe idx d m) = map (fun e => person e.2) m.
Proof.
  unfold append_ppe. rewrite !map_map. split; apply map_ext; intros [k i];
    destruct (Z.eqb k idx); reflexivity.
Qed.

Lemma assign_all_frame (thr : Q) (others : list detection) :
  forall m m',
    assign_all thr m others = Ok m' ->
    map fst m' = map fst m /\
    map (fun e => person e.2) m' = map (fun e => person e.2) m.
Proof.
  induction others as [|d rest IH]; intros m m' H; simpl in H.
  - injection H as <-. auto.
  - destruct (assign_one thr m d) as [m1|] eqn:E1; simpl in H; [|discriminate H].
    destruct (IH m1 m' H) as [H1 H2]. rewrite H1, H2.
    destruct (assign_one_shape thr m m1 d E1) as [-> | [idx ->]];
      [auto | apply append_ppe_frame].
Qed.

Lemma initial_mapping_frame (persons : list detection) :
  forall idx,
    map fst (initial_mapping idx persons)
    = map (fun n => (idx + Z.of_nat n)%Z) (seq 0 (length persons)) /\
    map (fun e => person e.2) (initial_mapping idx persons) = persons /\
    List.Forall (fun e => ppe e.2 = []) (initial_mapping idx persons).
Proof.
  induction persons as [|p rest IH]; intros idx; simpl; [auto|].
  destruct (IH (idx + 1)%Z) as [H1 [H2 H3]]. rewrite H1, H2.
  split; [|split; [reflexivity | constructor; [reflexivity | exact H3]]].
  rewrite Z.add_0_r. f_equal. rewrite <- seq_shift, map_map.
  apply map_ext. intros n. lia.
Qed.

(** X7: the keys of the returned mapping are 0, 1, .., N-1, and the
    persons under them are the person detections that pass
    [has_valid_box], in the order of the input. *)
Theorem mapping_keys_are_dense :
  forall (detections : list pyobj) (iou_thresh : Q) (m : mapping),
    match_ppe_to_person detections iou_thresh = Ok m ->
    map fst m = map Z.of_nat (seq 0 (length (persons_of detections))) /\
    map (fun e => person e.2) m = persons_of detections.
Proof.
  intros dets thr m H. rewrite match_unfold in H.
  destruct (assign_all_frame thr _ _ _ H) as [H1 H2].
  destruct (initial_mapping_frame (persons_of dets) 0) as [K1 [K2 _]].
  rewrite H1, H2, K1, K2. split; reflexivity.
Qed.

Lemma mapping_keys_are_dense_witness :
  map fst [(0%Z, mk_info (labelled "person" (box4 0 0 10 10) None None) []);
           (1%Z, mk_info (labelled "people" (box4 20 0 30 10) None None) [])]
  = map Z.of_nat
      (seq 0 (length (persons_of
                        [Dict (labelled "person" (box4 0 0 10 10) None None);
                         NotDict (VStr "noise");
                         Dict (labelled "people" (box4 20 0 30 10) None None)]))).
Proof.
  apply (mapping_keys_are_dense
           [Dict (labelled "person" (box4 0 0 10 10) None None);
            NotDict (VStr "noise");
            Dict (labelled "people" (box4 20 0 30 10) None None)] 0.15).
  reflexivity.
Defined.

Lemma assign_all_ppe_Forall (P : detection -> Prop) (thr : Q) (others : list detection) :
  forall m m',
    List.Forall P others ->
    List.Forall (fun e => List.Forall P (ppe e.2)) m ->
    assign_all thr m others = Ok m' ->
    List.Forall (fun e => List.Forall P (ppe e.2)) m'.
Proof.
  induction others as [|d rest IH]; intros m m' Ho Hm H; simpl in H.
  - injection H as <-. exact Hm.
  - inversion Ho as [|? ? Hd Hrest]; subst.
    destruct (assign_one thr m d) as [m1|] eqn:E1; simpl in H; [|discriminate H].
    apply (IH m1 m' Hrest); [|exact H].
    destruct (assign_one_shape thr m m1 d E1) as [-> | [idx ->]]; [exact Hm|].
    unfold append_ppe. apply List.Forall_map.
    eapply List.Forall_impl; [|exact Hm].
    intros [k i] Hi. destruct (Z.eqb k idx); simpl; [|exact Hi].
    apply List.Forall_app. split; [exact Hi | constructor; [exact Hd | constructor]].
Qed.

(** X8: in the returned mapping every [person] carries a person label
    ("person", "people" or "0") and no equipment list holds a detection
    with a person label. *)
Theorem mapping_separates_persons :
  forall (detections : list pyobj) (iou_thresh : Q) (m : mapping),
    match_ppe_to_person detections iou_thresh = Ok m ->
    List.Forall (fun e => is_person (person e.2) = true /\
                          List.Forall (fun d => is_person d = false) (ppe e.2)) m.
Proof.
  intros dets thr m H. rewrite match_unfold in H.
  destruct (assign_all_frame thr _ _ _ H) as [_ H2].
  destruct (initial_mapping_frame (persons_of dets) 0) as [_ [K2 K3]].
  rewrite K2 in H2.
  assert (Hppe : List.Forall (fun e => List.Forall (fun d => is_person d = false) (ppe e.2)) m).
  { eapply (assign_all_ppe_Forall (fun d => is_person d = false)); [| |exact H].
    - apply List.Forall_forall. intros d Hd. unfold equipment_of in Hd.
      apply filter_In in Hd. destruct Hd as [_ Hd]. apply negb_true_iff, Hd.
    - eapply List.Forall_impl; [|exact K3]. intros e He. rewrite He. constructor. }
  apply List.Forall_forall. intros e He. split.
  - assert (Hin : In (person e.2) (persons_of dets)).
    { rewrite <- H2. apply in_map_iff. exists e. auto. }
    unfold persons_of in Hin. apply filter_In in Hin. apply Hin.
  - rewrite List.Forall_forall in Hppe. apply Hppe, He.
Qed.

Lemma mapping_separates_persons_witness :
  List.Forall (fun e => is_person (person e.2) = true /\
                        List.Forall (fun d => is_person d = false) (ppe e.2))
    [(0%Z, mk_info (labelled "person" (box4 0 0 10 10) None None)
             [labelled "helmet" (box4 2 2 8 8) (Some 0.9) None])].
Proof.
  apply (mapping_separates_persons
           [Dict (labelled "helmet" (box4 2 2 8 8) (Some 0.9) None);
            Dict (labelled "person" (box4 0 0 10 10) None None)] 0.15).
  reflexivity.
Defined.

Lemma assign_all_sublist (thr : Q) (others : list detection) :
  forall (m m' : mapping) (done : list detection),
    List.Forall (fun e => ppe e.2 `sublist_of` done) m ->
    assign_all thr m others = Ok m' ->
    List.Forall (fun e => ppe e.2 `sublist_of` done ++ others) m'.
Proof.
  induction others as [|d rest IH]; intros m m' done Hm H; simpl in H.
  - injection H as <-. rewrite app_nil_r. exact Hm.
  - destruct (assign_one thr m d) as [m1|] eqn:E1; simpl in H; [|discriminate H].
    replace (done ++ d :: rest) with ((done ++ [d]) ++ rest)
      by (rewrite <- app_assoc; reflexivity).
    apply (IH m1 m' (done ++ [d])); [|exact H].
    destruct (assign_one_shape thr m m1 d E1) as [-> | [idx ->]].
    + eapply List.Forall_impl; [|exact Hm]. intros e He. apply sublist_inserts_r, He.
    + unfold append_ppe. apply List.Forall_map.
      eapply List.Forall_impl; [|exact Hm].
      intros [k i] Hi. destruct (Z.eqb k idx); simpl.
      * apply sublist_app; [exact Hi | reflexivity].
      * apply sublist_inserts_r, Hi.
Qed.

Lemma append_ppe_absent (idx : Z) (d : detection) (m : mapping) :
  ~ In idx (map fst m) -> append_ppe idx d m = m.
Proof.
  unfold append_ppe. induction m as [|[k i] rest IH]; simpl; intros H; [reflexivity|].
  destruct (Z.eqb_spec k idx) as [-> | Hne]; [exfalso; auto|].
  rewrite IH; [reflexivity | auto].
Qed.

Lemma append_ppe_count (idx : Z) (d : detection) (m : mapping) :
  List.NoDup (map fst m) ->
  (assigned_count (append_ppe idx d m) <= S (assigned_count m))%nat.
Proof.
  unfold assigned_count. induction m as [|[k i] rest IH]; simpl; intros Hnd; [lia|].
  inversion Hnd as [|? ? Hk Hrest]; subst.
  destruct (Z.eqb_spec k idx) as [-> | Hne]; simpl.
  - fold (append_ppe idx d rest). rewrite (append_ppe_absent idx d rest Hk).
    rewrite length_app. simpl. lia.
  - specialize (IH Hrest). lia.
Qed.

Lemma assign_all_count (thr : Q) (others : list detection) :
  forall m m',
    List.NoDup (map fst m) ->
    assign_all thr m others = Ok m' ->
    (assigned_count m' <= assigned_count m + length others)%nat.
Proof.
  induction others as [|d rest IH]; intros m m' Hnd H; simpl in H.
  - injection H as <-. lia.
  - destruct (assign_one thr m d) as [m1|] eqn:E1; simpl in H; [|discriminate H].
    assert (Hstep : List.NoDup (map fst m1) /\
                    (assigned_count m1 <= S (assigned_count m))%nat).
    { destruct (assign_one_shape thr m m1 d E1) as [-> | [idx ->]].
      - split; [exact Hnd | lia].
      - destruct (append_ppe_frame idx d m) as [-> _].
        split; [exact Hnd | apply append_ppe_count, Hnd]. }
    destruct Hstep as [Hnd1 Hc]. specialize (IH m1 m' Hnd1 H). simpl. lia.
Qed.

Lemma initial_mapping_NoDup (persons : list detection) (idx : Z) :
  List.NoDup (map fst (initial_mapping idx persons)).
Proof.
  destruct (initial_mapping_frame persons idx) as [-> _].
  apply Injective_map_NoDup; [|apply List.seq_NoDup].
  intros a b Hab. lia.
Qed.

Lemma append_ppe_all (idx : Z) (d : detection) (m : mapping) :
  List.NoDup (map fst m) -> all_ppe (append_ppe idx d m) ⊆+ d :: all_ppe m.
Proof.
  unfold all_ppe. induction m as [|[k i] rest IH]; simpl; intros Hnd.
  - apply submseteq_nil_l.
  - inversion Hnd as [|? ? Hk Hrest]; subst.
    destruct (Z.eqb_spec k idx) as [-> | Hne]; simpl.
    + fold (append_ppe idx d rest). rewrite (append_ppe_absent idx d rest Hk).
      rewrite <- app_assoc. simpl.
      rewrite <- Permutation_middle. reflexivity.
    + fold (append_ppe idx d rest).
      rewrite (Permutation_middle (ppe i) _ d).
      apply submseteq_skips_l, IH, Hrest.
Qed.

Lemma assign_all_all (thr : Q) (others : list detection) :
  forall m m',
    List.NoDup (map fst m) ->
    assign_all thr m others = Ok m' ->
    all_ppe m' ⊆+ all_ppe m ++ others.
Proof.
  induction others as [|d rest IH]; intros m m' Hnd H; simpl in H.
  - injection H as <-. rewrite app_nil_r. reflexivity.
  - destruct (assign_one thr m d) as [m1|] eqn:E1; simpl in H; [|discriminate H].
    assert (Hstep : List.NoDup (map fst m1) /\ all_ppe m1 ⊆+ d :: all_ppe m).
    { destruct (assign_one_shape thr m m1 d E1) as [-> | [idx ->]].
      - split; [exact Hnd | apply submseteq_cons; reflexivity].
      - destruct (append_ppe_frame idx d m) as [-> _].
        split; [exact Hnd | apply append_ppe_all, Hnd]. }
    destruct Hstep as [Hnd1 Hs]. specialize (IH m1 m' Hnd1 H).
    etransitivity; [exact IH|].
    rewrite <- Permutation_middle.
    change (d :: all_ppe m ++ rest) with ((d :: all_ppe m) ++ rest).
    apply submseteq_skips_r, Hs.
Qed.

Lemma all_ppe_initial (persons : list detection) (idx : Z) :
  all_ppe (initial_mapping idx persons) = [].
Proof.
  unfold all_ppe. revert idx. induction persons as [|p rest IH]; intros idx; simpl;
    [reflexivity | apply IH].
Qed.

Lemma submseteq_keeps_NoDup (l k : list detection) :
  l ⊆+ k -> List.NoDup k -> List.NoDup l.
Proof.
  intros H Hk. apply submseteq_Permutation in H. destruct H as [k' Hp].
  rewrite Hp in Hk. apply List.NoDup_app_remove_r in Hk. exact Hk.
Qed.

(** X9: every equipment list of the returned mapping is a subsequence of
    the equipment detections of the input, in their order; all the lists
    taken together are, counting repetitions, contained in the equipment
    detections, so an entry of the input goes to at most one person and
    at most once: when the equipment detections are pairwise different,
    no detection stands in two lists or twice in one; and the lists hold
    together at most as many entries as there are equipment
    detections. *)
Theorem equipment_goes_to_at_most_one_person :
  forall (detections : list pyobj) (iou_thresh : Q) (m : mapping),
    match_ppe_to_person detections iou_thresh = Ok m ->
    List.Forall (fun e => ppe e.2 `sublist_of` equipment_of detections) m /\
    all_ppe m ⊆+ equipment_of detections /\
    (List.NoDup (equipment_of detections) -> List.NoDup (all_ppe m)) /\
    (assigned_count m <= length (equipment_of detections))%nat.
Proof.
  intros dets thr m H. rewrite match_unfold in H.
  destruct (initial_mapping_frame (persons_of dets) 0) as [_ [_ K3]].
  assert (Hall : all_ppe m ⊆+ equipment_of dets).
  { pose proof (assign_all_all thr (equipment_of dets)
                  (initial_mapping 0 (persons_of dets)) m
                  (initial_mapping_NoDup (persons_of dets) 0) H) as Hs.
    rewrite all_ppe_initial in Hs. exact Hs. }
  split; [|split; [exact Hall | split]].
  - apply (assign_all_sublist thr (equipment_of dets)
             (initial_mapping 0 (persons_of dets)) m []); [|exact H].
    eapply List.Forall_impl; [|exact K3]. intros e He. rewrite He. constructor.
  - apply submseteq_keeps_NoDup, Hall.
  - pose proof (assign_all_count thr (equipment_of dets)
                  (initial_mapping 0 (persons_of dets)) m
                  (initial_mapping_NoDup (persons_of dets) 0) H) as Hc.
    assert (E0 : forall l : mapping,
               List.Forall (fun e => ppe e.2 = []) l -> assigned_count l = 0%nat).
    { intros l Hl. unfold assigned_count.
      induction Hl as [|e l' He Hl' IH]; simpl; [reflexivity|].
      rewrite He. simpl. exact IH. }
    rewrite (E0 _ K3) in Hc. lia.
Qed.

Lemma equipment_goes_to_at_most_one_person_witness :
  all_ppe
    [(0%Z, mk_info (labelled "person" (box4 0 0 10 10) None None)
             [labelled "helmet" (box4 2 2 8 8) (Some 0.9) None]);
     (1%Z, mk_info (labelled "person" (box4 1 1 11 11) None None)
             [labelled "vest" (box4 3 3 11 11) (Some 0.8) None])]
  ⊆+ equipment_of
       [Dict (labelled "person" (box4 0 0 10 10) None None);
        Dict (labelled "person" (box4 1 1 11 11) None None);
        Dict (labelled "helmet" (box4 2 2 8 8) (Some 0.9) None);
        Dict (labelled "vest" (box4 3 3 11 11) (Some 0.8) None)].
Proof.
  apply (equipment_goes_to_at_most_one_person
           [Dict (labelled "person" (box4 0 0 10 10) None None);
            Dict (labelled "person" (box4 1 1 11 11) None None);
            Dict (labelled "helmet" (box4 2 2 8 8) (Some 0.9) None);
            Dict (labelled "vest" (box4 3 3 11 11) (Some 0.8) None)] 0.15).
  vm_compute. reflexivity.
Defined.

Lemma first_containing_finds (m : mapping) (c : Q * Q) :
  numeric_persons m ->
  (exists idx i, In (idx, i) m /\ inside i c) ->
  exists idx i, In (idx, i) m /\ inside i c /\ first_containing m c = Ok (Some idx).
Proof.
  induction 1 as [|[k j] rest [b [box [Hb Hbox]]] Hrest IH]; intros [idx [i [Hin Hins]]].
  - destruct Hin.
  - simpl in Hb. rewrite (first_containing_step _ _ _ _ _ _ Hb Hbox).
    destruct (point_in_bool box c) eqn:E.
    + exists k, j. split; [left; reflexivity|]. split; [|reflexivity].
      exists b, box. split; [exact Hb|]. split; [exact Hbox|].
      apply point_in_bool_iff, E.
    + destruct Hin as [Heq | Hin].
      * injection Heq as <- <-. exfalso.
        destruct Hins as [b' [box' [Hb' [Hbox' Hp]]]].
        assert (b' = b) by congruence. subst b'.
        assert (box' = box) by congruence. subst box'.
        apply point_in_bool_iff in Hp. congruence.
      * destruct IH as [idx' [i' [Hin' [Hins' Hf]]]]; [exists idx, i; auto|].
        exists idx', i'. split; [right; exact Hin' | auto].
Qed.

Lemma center_within (inner outer : coords) :
  box_within inner outer -> point_in outer (center_coords inner).
Proof.
  destruct inner as [[[x1 y1] x2] y2], outer as [[[u1 v1] u2] v2].
  unfold box_within, point_in, center_coords. simpl.
  intros [[? [? ?]] [? [? ?]]].
  assert (Ex : (x1 + x2) / 2 == (x1 + x2) * (1 # 2)) by (unfold Qdiv; reflexivity).
  assert (Ey : (y1 + y2) / 2 == (y1 + y2) * (1 # 2)) by (unfold Qdiv; reflexivity).
  rewrite Ex, Ey. repeat split; lra.
Qed.

(** X10: an equipment detection whose numeric box lies within the box of
    some person of the mapping is never dropped: it is assigned by the
    IoU rule or, failing that, by the containment rule. *)
Theorem equipment_within_a_person_is_assigned :
  forall (iou_thresh : Q) (m : mapping) (ppe_det : detection) (ppe_box : pyval)
         (cb : coords) (idx : Z) (i : info) (p_box : pyval) (cp : coords),
    numeric_persons m ->
    d_box ppe_det = Some ppe_box -> box_coords ppe_box = Ok cb ->
    In (idx, i) m -> d_box (person i) = Some p_box -> box_coords p_box = Ok cp ->
    box_within cb cp ->
    exists k j, In (k, j) m /\
                assign_one iou_thresh m ppe_det = Ok (append_ppe k ppe_det m).
Proof.
  intros thr m e b cb idx i pb cp Hm Hb Hcb Hin Hpb Hcp Hw.
  assert (Hdef : List.Forall (fun x => exists o, overlap x.2 b o) m).
  { eapply List.Forall_impl; [|exact Hm].
    intros x Hx. exact (numeric_overlap x.2 b cb Hx Hcb). }
  destruct (iou_rule_decides m b thr 0 Hdef) as [Hnone | [bef [k [j [aft [ov H]]]]]].
  - destruct (first_containing_finds m (center_coords cb) Hm) as [k [j [Hk [_ Hf]]]].
    { exists idx, i. split; [exact Hin|]. exists pb, cp.
      split; [exact Hpb|]. split; [exact Hcp|]. apply center_within, Hw. }
    exists k, j. split; [exact Hk|]. unfold assign_one.
    rewrite (assign_target_fallback thr m e b (center_coords cb) Hb Hnone
               (center_numeric b cb Hcb)), Hf. reflexivity.
  - exists k, j. split; [destruct H as [-> _]; apply in_elt|].
    unfold assign_one. rewrite (assign_target_iou thr m e b k Hb); [reflexivity|].
    exists bef, j, aft, ov. exact H.
Qed.

Lemma equipment_within_a_person_is_assigned_witness :
  exists k j,
    In (k, j) [(0%Z, mk_info (labelled "person" (box4 0 0 1000 1000) None None) [])] /\
    assign_one 0.15 [(0%Z, mk_info (labelled "person" (box4 0 0 1000 1000) None None) [])]
      (labelled "helmet" (box4 10 10 20 20) (Some 0.9) None)
    = Ok (append_ppe k (labelled "helmet" (box4 10 10 20 20) (Some 0.9) None)
            [(0%Z, mk_info (labelled "person" (box4 0 0 1000 1000) None None) [])]).
Proof.
  apply (equipment_within_a_person_is_assigned 0.15
           [(0%Z, mk_info (labelled "person" (box4 0 0 1000 1000) None None) [])]
           (labelled "helmet" (box4 10 10 20 20) (Some 0.9) None)
           (box4 10 10 20 20) (coords_of 10 10 20 20) 0%Z
           (mk_info (labelled "person" (box4 0 0 1000 1000) None None) [])
           (box4 0 0 1000 1000) (coords_of 0 0 1000 1000)).
  - constructor; [|constructor]. eexists. eexists. split; reflexivity.
  - reflexivity.
  - reflexivity.
  - left. reflexivity.
  - reflexivity.
  - reflexivity.
  - vm_compute. repeat split; discriminate.
Defined.

(** ** [evaluate_violations] and [detect_violations] *)

Lemma filter_all {A : Type} (f : A -> bool) (l : list A) :
  List.Forall (fun x => f x = true) l -> List.filter f l = l.
Proof.
  induction 1 as [|x l Hx Hl IH]; simpl; [reflexivity|]. rewrite Hx, IH. reflexivity.
Qed.

Lemma filter_none {A : Type} (f : A -> bool) (l : list A) :
  List.Forall (fun x => f x = true) l -> List.filter (fun x => negb (f x)) l = [].
Proof.
  induction 1 as [|x l Hx Hl IH]; simpl; [reflexivity|]. rewrite Hx. simpl. exact IH.
Qed.

(** X11: when every detection that passes [has_valid_box] is a person,
    [detect_violations] returns, whatever the boxes hold, and reports
    every such person, in input order under the keys 0, 1, .., with
    helmet and vest both missing. *)
Theorem persons_alone_are_all_reported :
  forall (detections : list pyobj) (iou_thresh conf_threshold : Q),
    List.Forall (fun d => is_person d = true) (cleaned detections) ->
    match_ppe_to_person detections iou_thresh
      = Ok (initial_mapping 0 (cleaned detections)) /\
    detect_violations detections iou_thresh conf_threshold
      = Ok (map bare_violation (initial_mapping 0 (cleaned detections))).
Proof.
  intros dets thr conf H.
  assert (E : match_ppe_to_person dets thr = Ok (initial_mapping 0 (cleaned dets))).
  { rewrite match_unfold. unfold persons_of, equipment_of.
    rewrite (filter_all _ _ H), (filter_none _ _ H). reflexivity. }
  split; [exact E|]. unfold detect_violations. rewrite E. simpl.
  rewrite evaluate_violations_reports. simpl.
  destruct (initial_mapping_frame (cleaned dets) 0) as [_ [_ K3]].
  rewrite (reports_bare conf _ K3). reflexivity.
Qed.

Lemma persons_alone_are_all_reported_witness :
  detect_violations [Dict (labelled "person" (box4 0 0 10 10) None None);
                     Dict (labelled "PEOPLE" (box4 20 0 30 10) None None)] 0.15 0.35
  = Ok [mk_violation 0 (box4 0 0 10 10) true true no_signal;
        mk_violation 1 (box4 20 0 30 10) true true no_signal].
Proof.
  apply (persons_alone_are_all_reported
           [Dict (labelled "person" (box4 0 0 10 10) None None);
            Dict (labelled "PEOPLE" (box4 20 0 30 10) None None)] 0.15 0.35).
  repeat constructor.
Defined.

(** X12: [evaluate_violations] returns no violation exactly when every
    person of the mapping has, at the threshold, a helmet and a vest
    signal and neither a no_helmet nor a no_vest signal. *)
Theorem no_violation_iff_all_compliant :
  forall (arg : mapping_arg) (conf_threshold : Q),
    fst (evaluate_violations arg conf_threshold) = [] <->
    forall idx i,
      In (idx, i) (normalise_mapping arg) ->
      ~ spec_missing "helmet" "no_helmet" conf_threshold (ppe i) /\
      ~ spec_missing "vest" "no_vest" conf_threshold (ppe i).
Proof.
  intros arg thr. rewrite evaluate_violations_reports. simpl fst. split.
  - intros Hnil idx i Hin.
    pose proof (evaluate_person_spec thr idx i) as Hp.
    destruct (evaluate_person thr idx i) as [v|] eqn:Ev; [|exact Hp].
    exfalso. assert (Hv : In v (reports thr (normalise_mapping arg))).
    { apply In_reports. exists idx, i. auto. }
    rewrite Hnil in Hv. destruct Hv.
  - intros Hall. destruct (reports thr (normalise_mapping arg)) as [|v rest] eqn:E;
      [reflexivity|].
    exfalso. assert (Hv : In v (reports thr (normalise_mapping arg)))
      by (rewrite E; left; reflexivity).
    apply In_reports in Hv. destruct Hv as [idx [i [Hin Ev]]].
    pose proof (evaluate_person_spec thr idx i) as Hp. rewrite Ev in Hp.
    destruct (Hall idx i Hin) as [Nh Nv].
    destruct Hp as [_ [_ [_ [Hh Hv]]]].
    assert (Hm : missing_helmet v = true \/ missing_vest v = true).
    { unfold evaluate_person in Ev.
      destruct (negb (has_helmet (signals thr (ppe i))) || has_no_helmet (signals thr (ppe i)))
        eqn:E1; simpl in Ev.
      - injection Ev as <-. left. reflexivity.
      - destruct (negb (has_vest (signals thr (ppe i))) || has_no_vest (signals thr (ppe i)))
          eqn:E2; simpl in Ev; [|discriminate Ev].
        injection Ev as <-. right. reflexivity. }
    destruct Hm as [Hm | Hm]; [apply Nh, Hh, Hm | apply Nv, Hv, Hm].
Qed.

(** X13: the violations come in the iteration order of the mapping: the
    list of their [person_idx] is a subsequence of the keys, so there
    are never more violations than persons. *)
Theorem violations_follow_the_mapping :
  forall (arg : mapping_arg) (conf_threshold : Q),
    let violations := fst (evaluate_violations arg conf_threshold) in
    map person_idx violations `sublist_of` map fst (normalise_mapping arg) /\
    (length violations <= length (normalise_mapping arg))%nat.
Proof.
  intros arg thr. cbv zeta. rewrite evaluate_violations_reports. simpl fst.
  assert (H : map person_idx (reports thr (normalise_mapping arg))
              `sublist_of` map fst (normalise_mapping arg)).
  { unfold reports. induction (normalise_mapping arg) as [|[idx i] rest IH];
      [constructor|].
    change (omap ?f ((idx, i) :: rest))
      with (match f (idx, i) with Some v => v :: omap f rest | None => omap f rest end).
    pose proof (evaluate_person_spec thr idx i) as Hp. simpl.
    destruct (evaluate_person thr idx i) as [v|]; simpl.
    - destruct Hp as [-> _]. apply sublist_skip, IH.
    - apply sublist_cons, IH. }
  split; [exact H|]. apply sublist_length in H. rewrite !length_map in H. exact H.
Qed.

Lemma scan_ppe_unrecognised (thr : Q) (acc : details) (p : detection) :
  recognised thr p = false -> scan_ppe thr acc p = acc.
Proof.
  unfold recognised, scan_ppe, conf_of.
  set (lab := safe_label (Dict p)). clearbody lab.
  set (ok := Qle_bool thr (default 0 (d_conf p))). clearbody ok.
  destruct ok; rewrite ?andb_false_r, ?andb_true_r; [|reflexivity].
  destruct (String.eqb lab "helmet"), (String.eqb lab "no_helmet"),
    (String.eqb lab "vest"), (String.eqb lab "no_vest"); simpl;
    try discriminate; reflexivity.
Qed.

Lemma fold_scan_filter (thr : Q) (l : list detection) :
  forall acc,
    fold_left (scan_ppe thr) (List.filter (recognised thr) l) acc
    = fold_left (scan_ppe thr) l acc.
Proof.
  induction l as [|p rest IH]; intros acc; simpl; [reflexivity|].
  destruct (recognised thr p) eqn:E; simpl.
  - apply IH.
  - rewrite (scan_ppe_unrecognised thr acc p E). apply IH.
Qed.

(** X14: equipment whose label is none of "helmet", "no_helmet", "vest",
    "no_vest", or whose confidence is below the threshold, has no effect
    on the evaluation: dropping it from every equipment list leaves the
    violations and the boxes unchanged. *)
Theorem unrecognised_equipment_has_no_effect :
  forall (m : mapping) (conf_threshold : Q),
    evaluate_violations
      (AsDict (map (fun e => (e.1, mk_info (person e.2)
                                     (List.filter (recognised conf_threshold) (ppe e.2)))) m))
      conf_threshold
    = evaluate_violations (AsDict m) conf_threshold.
Proof.
  intros m thr. rewrite !evaluate_violations_reports. simpl.
  assert (E : reports thr
                (map (fun e => (e.1, mk_info (person e.2)
                                       (List.filter (recognised thr) (ppe e.2)))) m)
              = reports thr m).
  { unfold reports. induction m as [|[idx i] rest IH]; [reflexivity|].
    simpl map.
    change (omap ?f (?x :: ?l))
      with (match f x with Some v => v :: omap f l | None => omap f l end).
    rewrite IH. unfold evaluate_person, signals. simpl.
    rewrite fold_scan_filter. reflexivity. }
  rewrite E. reflexivity.
Qed.

Lemma details_ext (a b : details) :
  has_helmet a = has_helmet b -> has_no_helmet a = has_no_helmet b ->
  has_vest a = has_vest b -> has_no_vest a = has_no_vest b -> a = b.
Proof. destruct a, b; simpl; intros -> -> -> ->; reflexivity. Qed.

(** X15: the signals of a person do not depend on the order of the
    equipment list: two lists that are permutations of one another give
    the same four flags. *)
Theorem signals_ignore_order :
  forall (conf_threshold : Q) (l l' : list detection),
    Permutation l l' -> signals conf_threshold l = signals conf_threshold l'.
Proof.
  intros thr l l' HP.
  destruct (signals_spec thr l) as [H1 [H2 [H3 H4]]].
  destruct (signals_spec thr l') as [G1 [G2 [G3 G4]]].
  assert (Hin : forall P : detection -> Prop,
             (exists p, In p l /\ P p) <-> (exists p, In p l' /\ P p)).
  { intros P. split; intros [p [Hp HPp]]; exists p; split; auto.
    - eapply Permutation_in; eauto.
    - eapply Permutation_in; [apply Permutation_sym|]; eauto. }
  apply details_ext; apply Bool.eq_iff_eq_true.
  - rewrite H1, G1. apply Hin.
  - rewrite H2, G2. apply Hin.
  - rewrite H3, G3. apply Hin.
  - rewrite H4, G4. apply Hin.
Qed.

Lemma signals_ignore_order_witness :
  signals 0.35 [labelled "helmet" (box4 0 0 5 5) (Some 0.9) None;
                labelled "no_vest" (box4 0 5 5 9) (Some 0.8) None]
  = signals 0.35 [labelled "no_vest" (box4 0 5 5 9) (Some 0.8) None;
                  labelled "helmet" (box4 0 0 5 5) (Some 0.9) None].
Proof. apply signals_ignore_order. apply perm_swap. Defined.

(** ** The main loop: rows, mails and pace *)

Module PaceFacts.
Import App Gates Pace.

Lemma reports_length (thr : Q) (m : mapping) :
  (length (reports thr m) <= length m)%nat.
Proof.
  unfold reports. induction m as [|x rest IH]; [simpl; lia|].
  change (omap ?f (x :: rest))
    with (match f x with Some v => v :: omap f rest | None => omap f rest end).
  destruct (evaluate_person thr x.1 x.2); simpl; lia.
Qed.

Lemma log_violations_rows (e : env) (n : nat) (vs : list violation) :
  forall w,
    exists rows,
      logs (log_violations e n w vs) = logs w ++ rows /\ rows_of n vs rows.
Proof.
  unfold log_violations, rows_of.
  induction vs as [|v rest IH]; intros w; simpl.
  - exists []. rewrite app_nil_r. split; [reflexivity|]. split; [constructor | simpl; lia].
  - destruct (IH (log_violation e n w v)) as [rows [Hrows [Hall Hlen]]].
    assert (Hall' : List.Forall
                      (fun r => exists v0 t, (v = v0 \/ In v0 rest) /\
                                             r = violation_row t n v0) rows).
    { eapply List.Forall_impl; [|exact Hall].
      intros r [v0 [t [Hin Hr]]]. exists v0, t. auto. }
    destruct (CooldownFacts.log_due_dec e w (person_idx v)) as [Hdue | Hnot].
    + assert (E : logs (log_violation e n w v)
                  = logs w ++ [violation_row (clock e (ticks w)) n v])
        by (rewrite (CooldownFacts.log_violation_due e n w v Hdue); reflexivity).
      exists (violation_row (clock e (ticks w)) n v :: rows).
      rewrite Hrows, E, <- app_assoc. split; [reflexivity|]. split; [|simpl; lia].
      constructor; [|exact Hall']. exists v, (clock e (ticks w)). auto.
    + assert (E : logs (log_violation e n w v) = logs w)
        by (rewrite (CooldownFacts.log_violation_not_due e n w v Hnot); reflexivity).
      exists rows. rewrite Hrows, E. split; [reflexivity|]. split; [exact Hall' | lia].
Qed.

Lemma rows_of_not_summary (n : nat) (vs : list violation) (rows : list log_row) :
  rows_of n vs rows -> List.Forall (fun r => ~ is_summary r) rows.
Proof.
  intros [Hall _]. eapply List.Forall_impl; [|exact Hall].
  intros r [v [t [_ ->]]] H. discriminate H.
Qed.

Lemma alert_due_dec (cfg : config) (e : env) (vs : list violation) (w : world) :
  alert_due cfg e vs w \/ ~ alert_due cfg e vs w.
Proof.
  unfold alert_due, alert_due_as_stated, email_configured.
  rewrite <- !GateFacts.truthy_iff, <- GateFacts.nonempty_iff, <- Qle_bool_iff.
  destruct (enable_email cfg), (negb (Nat.eqb (length vs) 0)),
    (truthy (smtp_host cfg)), (truthy (smtp_user cfg)),
    (truthy (smtp_password cfg)), (truthy (recipient cfg)),
    (Qle_bool EMAIL_COOLDOWN (clock e (ticks w) - last_email_time (sess w)));
    intuition congruence.
Qed.

(** The effect of one pass of the loop, in one equation per case. *)
Lemma process_frame_cases (cfg : config) (e : env) (frame : list prediction) (w : world) :
  process_frame cfg e frame w = (Skipped, tick w) \/
  exists m,
    min_interval cfg <= clock e (ticks w) - last_frame_time (sess w) /\
    let now := clock e (ticks w) in
    let vs := fst (evaluate_violations (AsDict m) (conf_slider cfg)) in
    let boxes := snd (evaluate_violations (AsDict m) (conf_slider cfg)) in
    let w3 := append_log (mk_log_row now (length m) (length vs) None EmptyString)
                (set_session (set_last_frame_time now (sess w)) (tick w)) in
    (length vs <= length m)%nat /\
    process_frame cfg e frame w
    = (Processed vs boxes, email_alerts cfg e vs (log_violations e (length m) w3 vs)).
Proof.
  destruct (Qlt_le_dec (clock e (ticks w) - last_frame_time (sess w)) (min_interval cfg))
    as [H | H].
  - left. apply FrameFacts.process_frame_skips, H.
  - right. destruct (FrameFacts.process_frame_processes cfg e frame w H) as [m [_ Hp]].
    exists m. split; [exact H|]. cbv zeta in *. split; [|exact Hp].
    rewrite evaluate_violations_reports. simpl. apply reports_length.
Qed.

End PaceFacts.


(** X17: one pass of the loop makes at most one call of
    [send_email_alert], and none when the frame is skipped or has no
    violation. *)
Theorem at_most_one_mail_per_frame :
  forall (cfg : App.config) (e : App.env) (frame : list App.prediction) (w : App.world),
    let o := fst (App.process_frame cfg e frame w) in
    let w' := snd (App.process_frame cfg e frame w) in
    (App.mails w' = App.mails w \/ exists m, App.mails w' = App.mails w ++ [m]) /\
    (o = App.Skipped -> App.mails w' = App.mails w) /\
    (forall boxes, o = App.Processed [] boxes -> App.mails w' = App.mails w).
Proof.
  intros cfg e frame w. cbv zeta.
  destruct (PaceFacts.process_frame_cases cfg e frame w) as [-> | [m [_ H]]].
  - simpl. auto.
  - cbv zeta in H. destruct H as [_ ->]. simpl fst. simpl snd.
    set (vs := fst (evaluate_violations (AsDict m) (App.conf_slider cfg))) in *.
    set (w3 := App.append_log _ _).
    destruct (FrameFacts.log_violations_frame e (length m) vs w3) as [_ [_ M]].
    assert (M3 : App.mails w3 = App.mails w) by reflexivity.
    set (w4 := App.log_violations e (length m) w3 vs) in *.
    destruct (PaceFacts.alert_due_dec cfg e vs w4) as [Hdue | Hnot].
    + rewrite (GateFacts.email_alerts_due cfg e vs w4 Hdue). cbv zeta. simpl.
      rewrite M, M3. split; [right; eexists; reflexivity|].
      split; [intros H; discriminate H|].
      intros boxes H. injection H as Hvs _. exfalso.
      destruct Hdue as [_ [_ [Hne _]]]. apply Hne, Hvs.
    + destruct (GateFacts.email_alerts_not_due cfg e vs w4 Hnot) as [-> | ->]; simpl;
        rewrite M, M3; auto.
Qed.

Module PaceRuns.
Import App Gates Pace.

Lemma lookup_snoc {A : Type} (l : list A) (x y : A) (n : nat) :
  (l ++ [x]) !! n = Some y -> l !! n = Some y \/ (n = length l /\ y = x).
Proof.
  intros H. apply lookup_app_Some in H. destruct H as [H | [Hge H]]; [left; exact H|].
  right. destruct (n - length l)%nat eqn:E; [|destruct n0; discriminate H].
  simpl in H. injection H as <-. split; [lia | reflexivity].
Qed.

Lemma mail_invariant_transfer (e : env) (w w' : world) :
  mails w' = mails w -> last_email_time (sess w') = last_email_time (sess w) ->
  mail_invariant e w -> mail_invariant e w'.
Proof.
  intros Hm Ht [Hs Hb]. unfold mail_invariant. rewrite Hm, Ht. auto.
Qed.

Lemma mail_invariant_email_alerts (cfg : config) (e : env) (vs : list violation) (w : world) :
  mail_invariant e w -> mail_invariant e (email_alerts cfg e vs w).
Proof.
  intros Hinv.
  destruct (PaceFacts.alert_due_dec cfg e vs w) as [Hdue | Hnot].
  - rewrite (GateFacts.email_alerts_due cfg e vs w Hdue). cbv zeta.
    destruct Hinv as [Hs Hb]. destruct Hdue as [_ [Hcd _]]. unfold EMAIL_COOLDOWN in *.
    split; simpl mails.
    + intros n1 n2 m1 m2 Hlt H1 H2 Hd.
      apply lookup_snoc in H2. destruct H2 as [H2 | [-> ->]].
      * apply lookup_snoc in H1. destruct H1 as [H1 | [-> _]].
        -- exact (Hs n1 n2 m1 m2 Hlt H1 H2 Hd).
        -- apply lookup_lt_Some in H2. lia.
      * apply lookup_snoc in H1. destruct H1 as [H1 | [-> _]]; [|lia].
        pose proof (Hb n1 m1 H1 Hd) as Hle. simpl. unfold EMAIL_COOLDOWN. lra.
    + intros n m Hn Hd. apply lookup_snoc in Hn. destruct Hn as [Hn | [-> ->]].
      * pose proof (Hb n m Hn Hd) as Hle.
        destruct (delivers e (length (mails w))); simpl; lra.
      * rewrite Hd. simpl. lra.
  - destruct (GateFacts.email_alerts_not_due cfg e vs w Hnot) as [-> | ->];
      [exact Hinv | apply (mail_invariant_transfer e w); auto].
Qed.

Lemma mail_invariant_process_frame (cfg : config) (e : env) (frame : list prediction)
    (w : world) :
  mail_invariant e w -> mail_invariant e (snd (process_frame cfg e frame w)).
Proof.
  intros Hinv.
  destruct (PaceFacts.process_frame_cases cfg e frame w) as [-> | [m [_ H]]].
  - apply (mail_invariant_transfer e w); auto.
  - cbv zeta in H. destruct H as [_ ->]. simpl snd.
    apply mail_invariant_email_alerts.
    set (vs := fst (evaluate_violations (AsDict m) (conf_slider cfg))).
    set (w3 := append_log _ _).
    destruct (FrameFacts.log_violations_frame e (length m) vs w3) as [_ [T M]].
    apply (mail_invariant_transfer e w); [rewrite M | rewrite T | exact Hinv]; reflexivity.
Qed.

Lemma frame_invariant_rows (cfg : config) (w w' : world) (rows : list log_row) :
  logs w' = logs w ++ rows -> List.Forall (fun r => ~ is_summary r) rows ->
  last_frame_time (sess w') = last_frame_time (sess w) ->
  frame_invariant cfg w -> frame_invariant cfg w'.
Proof.
  intros Hl Hrows Ht [Hs Hb].
  assert (Hold : forall n r, (logs w ++ rows) !! n = Some r -> is_summary r ->
                             logs w !! n = Some r).
  { intros n r Hn Hr. apply lookup_app_Some in Hn. destruct Hn as [Hn | [_ Hn]]; [exact Hn|].
    exfalso. rewrite List.Forall_forall in Hrows.
    apply (Hrows r); [|exact Hr]. apply list_elem_of_In.
    eapply list_elem_of_lookup_2. exact Hn. }
  unfold frame_invariant. rewrite Hl, Ht. split.
  - intros n1 n2 r1 r2 Hlt H1 H2 S1 S2.
    exact (Hs n1 n2 r1 r2 Hlt (Hold _ _ H1 S1) (Hold _ _ H2 S2) S1 S2).
  - intros n r Hn Hr. exact (Hb n r (Hold _ _ Hn Hr) Hr).
Qed.

Lemma frame_invariant_summary (cfg : config) (w : world) (now : Q) (a b : nat) :
  0 <= min_interval cfg ->
  min_interval cfg <= now - last_frame_time (sess w) ->
  frame_invariant cfg w ->
  frame_invariant cfg
    (append_log (mk_log_row now a b None EmptyString)
       (set_session (set_last_frame_time now (sess w)) (tick w))).
Proof.
  intros H0 Hgap [Hs Hb]. split; simpl.
  - intros n1 n2 r1 r2 Hlt H1 H2 S1 S2.
    apply lookup_snoc in H2. destruct H2 as [H2 | [-> ->]].
    + apply lookup_snoc in H1. destruct H1 as [H1 | [-> _]].
      * exact (Hs n1 n2 r1 r2 Hlt H1 H2 S1 S2).
      * apply lookup_lt_Some in H2. lia.
    + apply lookup_snoc in H1. destruct H1 as [H1 | [-> _]]; [|lia].
      pose proof (Hb n1 r1 H1 S1) as Hle. simpl. lra.
  - intros n r Hn Hr. apply lookup_snoc in Hn. destruct Hn as [Hn | [-> ->]].
    + pose proof (Hb n r Hn Hr) as Hle. lra.
    + simpl. lra.
Qed.

Lemma frame_invariant_process_frame (cfg : config) (e : env) (frame : list prediction)
    (w : world) :
  0 <= min_interval cfg ->
  frame_invariant cfg w -> frame_invariant cfg (snd (process_frame cfg e frame w)).
Proof.
  intros H0 Hinv.
  destruct (PaceFacts.process_frame_cases cfg e frame w) as [-> | [m [Hgap H]]].
  - apply (frame_invariant_rows cfg w (tick w) []); auto.
    simpl. rewrite app_nil_r. reflexivity.
  - cbv zeta in H. destruct H as [_ ->]. simpl snd.
    set (vs := fst (evaluate_violations (AsDict m) (conf_slider cfg))).
    set (w3 := append_log _ _).
    assert (H3 : frame_invariant cfg w3)
      by (apply frame_invariant_summary; assumption).
    destruct (PaceFacts.log_violations_rows e (length m) vs w3) as [rows [Hrows Hof]].
    destruct (FrameFacts.log_violations_frame e (length m) vs w3) as [T _].
    destruct (FrameFacts.email_alerts_frame cfg e vs (log_violations e (length m) w3 vs))
      as [T' [_ L']].
    apply (frame_invariant_rows cfg w3 _ rows).
    + rewrite L'. exact Hrows.
    + exact (PaceFacts.rows_of_not_summary _ _ _ Hof).
    + rewrite T'. exact T.
    + exact H3.
Qed.

Lemma run_keeps (P : world -> Prop) (cfg : config) (e : env) :
  (forall frame w, P w -> P (snd (process_frame cfg e frame w))) ->
  forall frames w, P w -> P (snd (run cfg e frames w)).
Proof.
  intros Hstep. induction frames as [|frame rest IH]; intros w Hw; simpl; [exact Hw|].
  pose proof (Hstep frame w Hw) as H1.
  destruct (process_frame cfg e frame w) as [o w1]. simpl in H1.
  specialize (IH w1 H1).
  destruct o; try exact H1; destruct (run cfg e rest w1) as [os w2]; exact IH.
Qed.

Lemma min_interval_nonneg (cfg : config) : (1 <= run_rate cfg)%Z -> 0 <= min_interval cfg.
Proof.
  intros H. unfold min_interval, Qdiv. apply Qmult_le_0_compat; [lra|].
  apply Qinv_le_0_compat. change 0 with (inject_Z 0). rewrite <- Zle_Qle. lia.
Qed.

End PaceRuns.

(** X18: along a run that starts without mails, every call of
    [send_email_alert] made after a successful one comes at least
    [EMAIL_COOLDOWN] (60 s) after it, whatever the clock does. *)
Theorem delivered_mails_are_spaced :
  forall (cfg : App.config) (e : App.env) (frames : list (list App.prediction))
         (w : App.world),
    App.mails w = [] ->
    Pace.delivered_spaced e (App.mails (snd (App.run cfg e frames w))).
Proof.
  intros cfg e frames w Hm.
  apply (PaceRuns.run_keeps (Pace.mail_invariant e) cfg e).
  - intros frame w0. apply PaceRuns.mail_invariant_process_frame.
  - split; rewrite Hm.
    + intros n1 n2 m1 m2 _ H1. discriminate H1.
    + intros n m H1. discriminate H1.
Qed.

Lemma delivered_mails_are_spaced_witness :
  map App.mail_time
    (App.mails
       (snd (App.run (App.mk_config 0.35 8 true "smtp.gmail.com" 465 true
                        "safety@example.com" "secret" "boss@example.com")
               (App.mk_env (fun n => 1000 + inject_Z (Z.of_nat n) * 20) (fun _ => true))
               [[App.mk_prediction (0, 0, 10, 10)%Z 0.9 0 "person"];
                [App.mk_prediction (0, 0, 10, 10)%Z 0.9 0 "person"];
                [App.mk_prediction (0, 0, 10, 10)%Z 0.9 0 "person"];
                [App.mk_prediction (0, 0, 10, 10)%Z 0.9 0 "person"]]
               App.initial_world)))
  = [1060; 1140; 1220; 1300] /\
  Pace.delivered_spaced
    (App.mk_env (fun n => 1000 + inject_Z (Z.of_nat n) * 20) (fun _ => true))
    (App.mails
       (snd (App.run (App.mk_config 0.35 8 true "smtp.gmail.com" 465 true
                        "safety@example.com" "secret" "boss@example.com")
               (App.mk_env (fun n => 1000 + inject_Z (Z.of_nat n) * 20) (fun _ => true))
               [[App.mk_prediction (0, 0, 10, 10)%Z 0.9 0 "person"];
                [App.mk_prediction (0, 0, 10, 10)%Z 0.9 0 "person"];
                [App.mk_prediction (0, 0, 10, 10)%Z 0.9 0 "person"];
                [App.mk_prediction (0, 0, 10, 10)%Z 0.9 0 "person"]]
               App.initial_world))).
Proof.
  split; [vm_compute; reflexivity | apply delivered_mails_are_spaced; reflexivity].
Defined.

(** X19: along a run that starts with an empty log, with [run_rate] at
    least 1, any two processed frames are at least [1 / run_rate]
    seconds apart, by the readings that let them through: the loop never
    runs faster than the rate asked for. *)
Theorem processed_frames_are_spaced :
  forall (cfg : App.config) (e : App.env) (frames : list (list App.prediction))
         (w : App.world),
    (1 <= App.run_rate cfg)%Z -> App.logs w = [] ->
    Pace.frames_spaced cfg (App.logs (snd (App.run cfg e frames w))).
Proof.
  intros cfg e frames w Hrate Hl.
  apply (PaceRuns.run_keeps (Pace.frame_invariant cfg) cfg e).
  - intros frame w0. apply PaceRuns.frame_invariant_process_frame.
    apply PaceRuns.min_interval_nonneg, Hrate.
  - split; rewrite Hl.
    + intros n1 n2 r1 r2 _ H1. discriminate H1.
    + intros n r H1. discriminate H1.
Qed.

Lemma processed_frames_are_spaced_witness :
  Pace.frames_spaced
    (App.mk_config 0.35 8 false EmptyString 465 true EmptyString EmptyString EmptyString)
    (App.logs
       (snd (App.run
               (App.mk_config 0.35 8 false EmptyString 465 true
                  EmptyString EmptyString EmptyString)
               (App.mk_env (fun n => 1000 + inject_Z (Z.of_nat n)) (fun _ => true))
               [[]; []] App.initial_world))).
Proof. apply processed_frames_are_spaced; [vm_compute; discriminate | reflexivity]. Defined.

(** ** [core/logger.py] *)

Module LoggerFacts.
Import Logger.

Lemma append_inv_head (s a b : string) : (s ++ a = s ++ b)%string -> a = b.
Proof.
  induction s as [|c r IH]; simpl; intros H; [exact H|].
  injection H as H. apply IH, H.
Qed.

Lemma length_append (a b : string) :
  String.length (a ++ b) = (String.length a + String.length b)%nat.
Proof. induction a as [|c r IH]; simpl; [reflexivity|]. rewrite IH. reflexivity. Qed.

Lemma append_inv_tail (t : string) :
  forall a b : string, (a ++ t = b ++ t)%string -> a = b.
Proof.
  induction a as [|c r IH]; intros [|c' r'] H.
  - reflexivity.
  - exfalso. apply (f_equal String.length) in H.
    rewrite !length_append in H. cbn [String.length] in H. lia.
  - exfalso. apply (f_equal String.length) in H.
    rewrite !length_append in H. cbn [String.length] in H. lia.
  - simpl in H. injection H as -> H. f_equal. apply IH, H.
Qed.

Lemma snap_name_inj (ts : string) (i j : Z) : snap_name ts i = snap_name ts j -> i = j.
Proof.
  unfold snap_name. intros H.
  apply append_inv_head in H. apply (append_inv_head "_p") in H.
  apply append_inv_tail in H. apply str_of_int_inj, H.
Qed.

Lemma snap_name_head (ts : string) (i j : Z) :
  starts_with_slash (snap_name ts i) = starts_with_slash (snap_name ts j).
Proof.
  unfold snap_name. destruct (remove_colons ts); reflexivity.
Qed.

End LoggerFacts.

(** X20: the snapshot written by [log_violation] is a window that lies
    inside the frame and inside the box and has at least one row and one
    column; the whole frame is written instead exactly when the box,
    clamped to the frame, is empty. *)
Theorem snapshot_window_is_inside_the_frame :
  forall (x1 y1 x2 y2 h w : Z),
    match Logger.crop_of (x1, y1, x2, y2) h w with
    | Logger.Window y1c y2c x1c x2c =>
        (0 <= x1c /\ x1c < x2c /\ x2c <= w)%Z /\
        (0 <= y1c /\ y1c < y2c /\ y2c <= h)%Z /\
        (x1 <= x1c /\ x2c <= x2)%Z /\ (y1 <= y1c /\ y2c <= y2)%Z
    | Logger.WholeFrame =>
        (x2 <= x1 \/ x2 <= 0 \/ w <= x1 \/ w <= 0 \/
         y2 <= y1 \/ y2 <= 0 \/ h <= y1 \/ h <= 0)%Z
    end.
Proof.
  intros x1 y1 x2 y2 h w. unfold Logger.crop_of.
  destruct (Z.ltb_spec (Z.max 0 x1) (Z.min w x2)) as [Hx | Hx];
    destruct (Z.ltb_spec (Z.max 0 y1) (Z.min h y2)) as [Hy | Hy]; cbn [andb]; lia.
Qed.

(** X21: for one time stamp, two distinct persons never get the same
    snapshot path; the person id of the CSV row is empty exactly for a
    negative index and distinguishes any two non-negative ones. *)
Theorem snapshot_paths_and_person_ids_are_distinct :
  (forall (ts : string) (i j : Z),
      Logger.snap_path ts i = Logger.snap_path ts j -> i = j) /\
  (forall i : Z, Logger.person_id i = EmptyString <-> (i < 0)%Z) /\
  (forall i j : Z,
      (0 <= i)%Z -> (0 <= j)%Z -> Logger.person_id i = Logger.person_id j -> i = j).
Proof.
  split; [|split].
  - intros ts i j. unfold Logger.snap_path, Logger.path_join.
    rewrite (LoggerFacts.snap_name_head ts i j).
    destruct (Logger.starts_with_slash (Logger.snap_name ts j)).
    + apply LoggerFacts.snap_name_inj.
    + destruct (negb (truthy Logger.SNAP_DIR) || Logger.ends_with_slash Logger.SNAP_DIR);
        intros H; apply LoggerFacts.append_inv_head in H;
        [|apply (LoggerFacts.append_inv_head "/") in H];
        exact (LoggerFacts.snap_name_inj ts i j H).
  - intros i. unfold Logger.person_id.
    destruct (Z.leb_spec 0 i) as [H | H]; split; intros H'; try lia; try reflexivity.
    discriminate H'.
  - intros i j Hi Hj. unfold Logger.person_id.
    destruct (Z.leb_spec 0 i); [|lia]. destruct (Z.leb_spec 0 j); [|lia].
    intros E. apply LoggerFacts.append_inv_head in E. apply str_of_int_inj, E.
Qed.


(** ** [core/detector.py] *)

Module DetectorFacts.
Import Detector.

Lemma is_space_lower (c : ascii) : is_space (lower_ascii c) = is_space c.
Proof. destruct c as [[] [] [] [] [] [] [] []]; reflexivity. Qed.

Lemma blank_lower (s : string) : blank (lower s) = blank s.
Proof.
  induction s as [|c r IH]; simpl; [reflexivity|].
  rewrite is_space_lower, IH. reflexivity.
Qed.

Lemma truthy_lower (s : string) : truthy (lower s) = truthy s.
Proof. destruct s; reflexivity. Qed.

Lemma blank_not_truthy (s : string) : truthy s = false -> blank s = true.
Proof. destruct s; [reflexivity | discriminate]. Qed.

Lemma ensure_label_cases (names : Z -> option string) (d : detection) :
  (exists s, d_label d = Some s /\ blank s = false /\
             ensure_label names d = with_label (lower s) d) \/
  ((forall s, d_label d = Some s -> blank s = true) /\
   ensure_label names d = with_label (lower (derived_name names d)) d).
Proof.
  unfold ensure_label. destruct (d_label d) as [s|] eqn:E.
  - destruct (blank s) eqn:B; simpl.
    + right. split; [|reflexivity]. intros s' [= <-]. exact B.
    + left. exists s. split; [reflexivity|]. split; [exact B | reflexivity].
  - right. split; [|reflexivity]. intros s' H. discriminate H.
Qed.

Lemma derived_name_relabel (names : Z -> option string) (d : detection) :
  (forall s, d_label d = Some s -> blank s = true) ->
  lower (derived_name names (with_label (lower (derived_name names d)) d))
  = lower (derived_name names d).
Proof.
  intros Hb. unfold derived_name.
  cbn [with_label d_cls d_class d_class_id d_category d_name d_class_name d_label
       d_label_text].
  destruct (first_present [d_cls d; d_class d; d_class_id d; d_category d]) as [z|];
    [reflexivity|].
  cbn [first_truthy].
  destruct (d_name d) as [n|]; [destruct (truthy n) eqn:Tn; [reflexivity|]|];
    (destruct (d_class_name d) as [c|]; [destruct (truthy c) eqn:Tc; [reflexivity|]|]);
    (destruct (d_label d) as [l|]; [destruct (truthy l) eqn:Tl|]);
    (destruct (d_label_text d) as [t|]; [destruct (truthy t) eqn:Tt|]);
    simpl; rewrite ?truthy_lower, ?Tl, ?Tt; simpl;
    rewrite ?truthy_lower, ?Tl, ?Tt; simpl; rewrite ?lower_idempotent; reflexivity.
Qed.

End DetectorFacts.

(** X22: after [_ensure_labels] every dictionary carries a label, this
    label is in lower case and is exactly what [safe_label] returns for
    it; the box and the confidence are untouched, so the dictionary is
    kept or dropped by [has_valid_box] as before. *)
Theorem normalised_label_is_what_the_rules_read :
  forall (names : Z -> option string) (d : detection),
    exists l : string,
      d_label (Detector.ensure_label names d) = Some l /\
      lower l = l /\
      safe_label (Dict (Detector.ensure_label names d)) = l /\
      has_valid_box (Dict (Detector.ensure_label names d)) = has_valid_box (Dict d) /\
      d_conf (Detector.ensure_label names d) = d_conf d.
Proof.
  intros names d.
  destruct (DetectorFacts.ensure_label_cases names d) as [(s & _ & _ & ->) | [_ ->]].
  - exists (lower s). simpl. rewrite !lower_idempotent. repeat split; reflexivity.
  - exists (lower (Detector.derived_name names d)). simpl.
    rewrite !lower_idempotent. repeat split; reflexivity.
Qed.

(** X23: normalising twice is the same as normalising once, for one
    dictionary and for a list. *)
Theorem normalisation_is_idempotent :
  forall (names : Z -> option string),
    (forall d : detection,
        Detector.ensure_label names (Detector.ensure_label names d)
        = Detector.ensure_label names d) /\
    (forall detections : list detection,
        Detector._ensure_labels names (Detector._ensure_labels names detections)
        = Detector._ensure_labels names detections).
Proof.
  intros names.
  assert (K : forall d : detection,
             Detector.ensure_label names (Detector.ensure_label names d)
             = Detector.ensure_label names d).
  { intros d.
    destruct (DetectorFacts.ensure_label_cases names d) as [(s & E & B & ->) | [Hb ->]].
    - unfold Detector.ensure_label at 1. simpl.
      rewrite DetectorFacts.blank_lower, B. simpl. rewrite lower_idempotent. reflexivity.
    - set (n := Detector.derived_name names d).
      destruct (DetectorFacts.ensure_label_cases names (Detector.with_label (lower n) d))
        as [(s & E & B & ->) | [Hb' ->]].
      + simpl in E. injection E as <-. simpl. rewrite lower_idempotent. reflexivity.
      + unfold n. rewrite (DetectorFacts.derived_name_relabel names d Hb). reflexivity. }
  split; [exact K|].
  intros detections. unfold Detector._ensure_labels. rewrite map_map.
  apply map_ext. intros d. apply K.
Qed.

(** X24: a dictionary that comes with a label that is not blank, or with
    no label and no class index that the name table knows, is read by
    [safe_label] after the normalisation as it was before. *)
Theorem normalisation_keeps_the_label_read :
  forall (names : Z -> option string) (d : detection),
    match d_label d with
    | Some s => Detector.blank s = false
    | None =>
        forall z, first_present [d_cls d; d_class d; d_class_id d; d_category d] = Some z ->
                  names z = None
    end ->
    safe_label (Dict (Detector.ensure_label names d)) = safe_label (Dict d).
Proof.
  intros names d H. unfold Detector.ensure_label, Detector.derived_name, safe_label.
  destruct (d_label d) as [s|] eqn:E.
  - rewrite H. simpl. apply lower_idempotent.
  - cbn [Detector.with_label d_label].
    destruct (first_present [d_cls d; d_class d; d_class_id d; d_category d]) as [z|] eqn:F.
    + rewrite (H z eq_refl). simpl. rewrite lower_idempotent. apply lower_str_of_int.
    + rewrite lower_idempotent. simpl.
      destruct (d_name d) as [n|]; [destruct (truthy n); [reflexivity|]|];
        (destruct (d_class_name d) as [c|]; [destruct (truthy c); [reflexivity|]|]);
        (destruct (d_label_text d) as [t|]; [destruct (truthy t)|]); reflexivity.
Qed.

Lemma normalisation_keeps_the_label_read_witness :
  safe_label (Dict (Detector.ensure_label (fun _ => None)
                      (predicted (box4 0 0 4 4) 0.5 3 "Helmet")))
  = safe_label (Dict (predicted (box4 0 0 4 4) 0.5 3 "Helmet")).
Proof.
  apply (normalisation_keeps_the_label_read (fun _ => None)
           (predicted (box4 0 0 4 4) 0.5 3 "Helmet")).
  reflexivity.
Defined.

(** X25: for each box, [predict] builds a dictionary whose label is the
    name of the class index in the name table, or the index in decimal
    when the table has no entry, and normalises it; the result carries
    this label in lower case, also when the name is blank, together with
    the same box, confidence and class index. *)
Theorem predict_yields_the_lower_case_class_name :
  forall (names : Z -> option string) (x1 y1 x2 y2 : Z) (conf : Q) (cls : Z),
    Dict (Detector.ensure_label names
            (predicted (box4 x1 y1 x2 y2) conf cls (default (str_of_int cls) (names cls))))
    = App.detection_of
        (App.mk_prediction (x1, y1, x2, y2) conf cls (default (str_of_int cls) (names cls))).
Proof.
  intros names x1 y1 x2 y2 conf cls.
  unfold App.detection_of, Detector.ensure_label, Detector.derived_name, predicted. simpl.
  destruct (Detector.blank (default (str_of_int cls) (names cls))); reflexivity.
Qed.


(** ** [draw_boxes]: which boxes are drawn in red *)

Lemma py_eq_box4 (a1 a2 a3 a4 b1 b2 b3 b4 : Z) :
  py_eq (box4 a1 a2 a3 a4) (box4 b1 b2 b3 b4) = true <->
  box4 a1 a2 a3 a4 = box4 b1 b2 b3 b4.
Proof.
  unfold box4. simpl.
  rewrite !andb_true_r, !andb_true_iff, !Z.eqb_eq. split.
  - intros (-> & -> & -> & ->). reflexivity.
  - intros [= -> -> -> ->]. auto.
Qed.

Lemma py_eq_drawn_box (p q : App.prediction) :
  py_eq (drawn_box p) (drawn_box q) = true <-> drawn_box p = drawn_box q.
Proof.
  unfold drawn_box.
  destruct (App.p_box p) as [[[a1 a2] a3] a4], (App.p_box q) as [[[b1 b2] b3] b4].
  apply py_eq_box4.
Qed.

Lemma detection_of_fields (p : App.prediction) (d : detection) :
  App.detection_of p = Dict d ->
  d_box d = Some (drawn_box p) /\ safe_label (Dict d) = lower (App.p_label p).
Proof.
  unfold App.detection_of, drawn_box. destruct (App.p_box p) as [[[x1 y1] x2] y2].
  intros [= <-]. simpl. rewrite lower_idempotent. auto.
Qed.

(** X26: in a processed frame every reported violation belongs to a
    detection of the frame that is a person, and [draw_boxes] draws a
    detection of the frame in red exactly when its box is the box of a
    reported violation; so every violating person is drawn in red, and
    so is any other detection with the very same box.  Called without
    [violation_boxes], [draw_boxes] draws every box in green. *)
Theorem red_boxes_are_the_boxes_of_the_violations :
  forall (cfg : App.config) (e : App.env) (frame : list App.prediction) (w w' : App.world)
         (vs : list violation) (boxes : list pyval),
    App.process_frame cfg e frame w = (App.Processed vs boxes, w') ->
    (forall v, In v vs ->
       exists p, In p frame /\ is_person_label (lower (App.p_label p)) = true /\
                 person_box v = drawn_box p /\
                 box_color (drawn_box p) (Some boxes) = red) /\
    (forall p, In p frame ->
       (box_color (drawn_box p) (Some boxes) = red <->
        exists v, In v vs /\ person_box v = drawn_box p)) /\
    (forall box, box_color box None = green).
Proof.
  intros cfg e frame w w' vs boxes H.
  destruct (Qlt_le_dec (App.clock e (App.ticks w) - App.last_frame_time (App.sess w))
              (App.min_interval cfg)) as [Hs | Hp].
  { rewrite (FrameFacts.process_frame_skips cfg e frame w Hs) in H. discriminate H. }
  destruct (FrameFacts.process_frame_processes cfg e frame w Hp) as [m [Hm Hpf]].
  cbv zeta in Hpf. rewrite Hpf in H. clear Hpf.
  rewrite evaluate_violations_reports in H. simpl in H.
  injection H as Hvs Hboxes _. rewrite Hvs in Hboxes. subst boxes.
  assert (P : forall v, In v vs ->
            exists p, In p frame /\ is_person_label (lower (App.p_label p)) = true /\
                      person_box v = drawn_box p).
  { intros v Hv. rewrite <- Hvs in Hv. apply In_reports in Hv.
    destruct Hv as (idx & i & Hin & Hev).
    pose proof (evaluate_person_spec (App.conf_slider cfg) idx i) as Hspec.
    rewrite Hev in Hspec. destruct Hspec as (_ & Hbox & _).
    destruct (mapping_holds_valid_boxes _ _ _ Hm idx i (person i) Hin (or_introl eq_refl))
      as [Hd _].
    apply in_map_iff in Hd. destruct Hd as (p & Hp' & Hpin).
    destruct (detection_of_fields p (person i) Hp') as [Hb Hl].
    exists p. split; [exact Hpin|]. split.
    - rewrite <- Hl. change (is_person (person i) = true).
      rewrite match_unfold in Hm.
      destruct (assign_all_frame _ _ _ _ Hm) as [_ H2].
      destruct (initial_mapping_frame (persons_of (map App.detection_of frame)) 0)
        as [_ [K2 _]].
      rewrite K2 in H2.
      assert (Hper : In (person i) (persons_of (map App.detection_of frame))).
      { rewrite <- H2. apply in_map_iff. exists (idx, i). auto. }
      unfold persons_of in Hper. apply filter_In in Hper. apply Hper.
    - rewrite Hbox, Hb. reflexivity. }
  assert (R : forall p, In p frame ->
            (box_color (drawn_box p) (Some (map person_box vs)) = red <->
             exists v, In v vs /\ person_box v = drawn_box p)).
  { intros p Hp'. unfold box_color. simpl. split.
    - destruct (existsb _ _) eqn:E; [|discriminate]. intros _.
      apply existsb_exists in E. destruct E as (b & Hb & Heq).
      apply in_map_iff in Hb. destruct Hb as (v & <- & Hv).
      exists v. split; [exact Hv|].
      destruct (P v Hv) as (q & _ & _ & Hq). rewrite Hq in *.
      apply py_eq_drawn_box, Heq.
    - intros (v & Hv & Hbox).
      assert (E : existsb (fun b => py_eq b (drawn_box p)) (map person_box vs) = true).
      { apply existsb_exists. exists (person_box v). split; [apply in_map, Hv|].
        rewrite Hbox. apply py_eq_drawn_box. reflexivity. }
      rewrite E. reflexivity. }
  split; [|split; [exact R | reflexivity]].
  intros v Hv. destruct (P v Hv) as (p & Hpin & Hlab & Hbox).
  exists p. repeat (split; [assumption|]).
  apply (R p Hpin). exists v. auto.
Qed.

Lemma red_boxes_are_the_boxes_of_the_violations_witness :
  box_color (box4 0 0 10 10) (Some [box4 0 0 10 10]) = red <->
  exists v, In v [mk_violation 0 (box4 0 0 10 10) true true no_signal] /\
            person_box v = box4 0 0 10 10.
Proof.
  pose proof (red_boxes_are_the_boxes_of_the_violations
                (App.mk_config 0.35 8 false EmptyString 465 true
                   EmptyString EmptyString EmptyString)
                (App.mk_env (fun n => 1000 + inject_Z (Z.of_nat n)) (fun _ => true))
                [App.mk_prediction (0, 0, 10, 10)%Z 0.9 0 "person"]
                App.initial_world _ _ _ eq_refl) as [_ [R _]].
  exact (R (App.mk_prediction (0, 0, 10, 10)%Z 0.9 0 "person") (or_introl eq_refl)).
Defined.
